(** * SchemaEditor: the SQL side panel and the column sidebar

    A shallow embedding of the DDL synchronisation code of the schema
    editor: the text repairs that run before parsing
    ([ensureTableNamesAreQuoted], [removeDuplicateAlterTableStatements]),
    the apply / cancel / live-edit handlers of the SQL editor component
    with the effects that regenerate the DDL, the layout-preserving merge
    of a parsed graph with the previous one, and the column rename of the
    schema sidebar.

    Texts are Rocq strings: sequences of 8-bit code units, read as the
    code units below 256 of a JavaScript string.  The character classes,
    [trim] and [toLowerCase] are those of ECMAScript on that range. *)

From Stdlib Require Import String Ascii ZArith DecimalString.
From stdpp Require Import base option list strings gmap.

Local Open Scope string_scope.

(* ================================================================== *)
(** ** JavaScript strings *)
(* ================================================================== *)

Module Js.

Definition code (c : ascii) : nat := nat_of_ascii c.

(** The double quote, the single quote, the backtick and the line feed,
    by code unit. *)
Definition dq : ascii := ascii_of_nat 34.
Definition sq : ascii := ascii_of_nat 39.
Definition bq : ascii := ascii_of_nat 96.
Definition lf : ascii := ascii_of_nat 10.

Definition DQ : string := String dq "".
Definition LF : string := String lf "".

Definition between (lo hi n : nat) : bool := (lo <=? n)%nat && (n <=? hi)%nat.

(** [\s], and what [trim] strips: TAB, LF, VT, FF, CR, SP and NBSP. *)
Definition isSpace (c : ascii) : bool :=
  let n := code c in between 9 13 n || (n =? 32)%nat || (n =? 160)%nat.

(** [\w] is [[A-Za-z0-9_]], also under the [i] flag. *)
Definition isWord (c : ascii) : bool :=
  let n := code c in
  between 65 90 n || between 97 122 n || between 48 57 n || (n =? 95)%nat.

Definition isQuote (c : ascii) : bool :=
  let n := code c in (n =? 34)%nat || (n =? 39)%nat || (n =? 96)%nat.

(** [String.prototype.toLowerCase] on one code unit: A-Z and the
    Latin-1 capitals (all of U+00C0..U+00DE but the multiplication sign). *)
Definition lowerChar (c : ascii) : ascii :=
  let n := code c in
  if between 65 90 n || (between 192 222 n && negb (n =? 215)%nat)
  then ascii_of_nat (n + 32) else c.

Fixpoint toLowerCase (s : string) : string :=
  match s with
  | "" => ""
  | String c s' => String (lowerChar c) (toLowerCase s')
  end.

(** A string is truthy when it is not empty. *)
Definition truthy (s : string) : bool :=
  match s with "" => false | _ => true end.

Fixpoint trimStart (s : string) : string :=
  match s with
  | String c s' => if isSpace c then trimStart s' else s
  | "" => ""
  end.

Fixpoint trimEnd (s : string) : string :=
  match s with
  | "" => ""
  | String c s' =>
      let t := trimEnd s' in
      if isSpace c && negb (truthy t) then "" else String c t
  end.

Definition trim (s : string) : string := trimEnd (trimStart s).

Fixpoint startsWith (p s : string) : bool :=
  match p, s with
  | "", _ => true
  | String a p', String b s' => if Ascii.eqb a b then startsWith p' s' else false
  | String _ _, "" => false
  end.

Fixpoint includes (sub s : string) : bool :=
  startsWith sub s ||
  match s with
  | "" => false
  | String _ s' => includes sub s'
  end.

(** [s.split(c)] for a one-character separator: the pieces between the
    occurrences of [c], never an empty list. *)
Fixpoint splitChar (c : ascii) (s : string) : list string :=
  match s with
  | "" => [""]
  | String d s' =>
      if Ascii.eqb c d then "" :: splitChar c s'
      else match splitChar c s' with
           | p :: ps => String d p :: ps
           | [] => [String d ""]
           end
  end.

(** [xs.join(sep)]. *)
Fixpoint join (sep : string) (xs : list string) : string :=
  match xs with
  | [] => ""
  | [x] => x
  | x :: rest => x ++ sep ++ join sep rest
  end.

Fixpoint concat (xs : list string) : string :=
  match xs with
  | [] => ""
  | x :: rest => x ++ concat rest
  end.

(** The first [n] code units of [s]. *)
Fixpoint take (n : nat) (s : string) : string :=
  match n, s with
  | S n', String c s' => String c (take n' s')
  | _, _ => ""
  end.

(** [s] without its first [n] code units. *)
Fixpoint drop (n : nat) (s : string) : string :=
  match n, s with
  | S n', String _ s' => drop n' s'
  | _, _ => s
  end.

End Js.

(* ================================================================== *)
(** ** Regular expressions, as the editor uses them *)
(* ================================================================== *)

(** The backtracking matcher of ECMAScript, for the operators that occur
    in the regular expressions of the SQL editor: literals, character
    classes, greedy [+] and [*] over a class, greedy [?] over a group,
    alternation, one capture group and negative lookahead. *)
Module Regex.

Inductive regex : Type :=
| Eps
| Chr (c : ascii)
| Cls (p : ascii -> bool)
| ClsPlus (p : ascii -> bool)
| ClsStar (p : ascii -> bool)
| Cat (r1 r2 : regex)
| Alt (r1 r2 : regex)
| Opt (r : regex)
| Cap (r : regex)
| NotAhead (r : regex).

(** A literal word, character by character. *)
Fixpoint lit (s : string) : regex :=
  match s with
  | "" => Eps
  | String c "" => Chr c
  | String c s' => Cat (Chr c) (lit s')
  end.

Fixpoint seq (rs : list regex) : regex :=
  match rs with
  | [] => Eps
  | [r] => r
  | r :: rest => Cat r (seq rest)
  end.

(** Under the [i] flag two code units match when they canonicalise to
    the same one; with an ASCII letter in the pattern that is the other
    case of the same letter. *)
Definition upperAscii (c : ascii) : ascii :=
  let n := Js.code c in
  if Js.between 97 122 n then ascii_of_nat (n - 32) else c.

Definition sameChar (ignoreCase : bool) (a b : ascii) : bool :=
  if ignoreCase then Ascii.eqb (upperAscii a) (upperAscii b) else Ascii.eqb a b.

(** What a successful match leaves: the text after it and the capture. *)
Definition outcome : Type := string * option string.

(** Greedy [C*]: the longest run first, then shorter ones. *)
Fixpoint star (p : ascii -> bool) (s : string)
    (k : string -> option outcome) : option outcome :=
  match s with
  | String c s' =>
      if p c then
        match star p s' k with
        | Some m => Some m
        | None => k s
        end
      else k s
  | "" => k ""
  end.

Fixpoint run (ignoreCase : bool) (r : regex) (s : string) (cap : option string)
    (k : string -> option string -> option outcome) : option outcome :=
  match r with
  | Eps => k s cap
  | Chr c =>
      match s with
      | String d s' => if sameChar ignoreCase c d then k s' cap else None
      | "" => None
      end
  | Cls p =>
      match s with
      | String d s' => if p d then k s' cap else None
      | "" => None
      end
  | ClsPlus p =>
      match s with
      | String d s' => if p d then star p s' (fun t => k t cap) else None
      | "" => None
      end
  | ClsStar p => star p s (fun t => k t cap)
  | Cat r1 r2 =>
      run ignoreCase r1 s cap (fun t cap' => run ignoreCase r2 t cap' k)
  | Alt r1 r2 =>
      match run ignoreCase r1 s cap k with
      | Some m => Some m
      | None => run ignoreCase r2 s cap k
      end
  | Opt r1 =>
      match run ignoreCase r1 s cap k with
      | Some m => Some m
      | None => k s cap
      end
  | Cap r1 =>
      run ignoreCase r1 s cap
        (fun t _ => k t (Some (Js.take (String.length s - String.length t) s)))
  | NotAhead r1 =>
      match run ignoreCase r1 s cap (fun t c => Some (t, c)) with
      | Some _ => None
      | None => k s cap
      end
  end.

(** A match that starts at the head of [s]: how many code units it
    takes and the text of the capture group. *)
Definition matchAt (ignoreCase : bool) (r : regex) (s : string)
    : option (nat * string) :=
  match run ignoreCase r s None (fun t c => Some (t, c)) with
  | Some (t, c) => Some (String.length s - String.length t, default "" c)
  | None => None
  end.

(** [r.exec(s)] succeeds when the expression matches somewhere. *)
Fixpoint test (ignoreCase : bool) (r : regex) (s : string) : bool :=
  match matchAt ignoreCase r s with
  | Some _ => true
  | None =>
      match s with
      | String _ s' => test ignoreCase r s'
      | "" => false
      end
  end.

(** [s.replace(r, template)] under the [g] flag: the matches are found
    left to right, each search starting where the last match ended;
    [skip] counts the code units of the current match still to pass.
    After an empty match the scan moves on by one code unit. *)
Fixpoint replaceFrom (ignoreCase : bool) (r : regex) (template : string -> string)
    (skip : nat) (s : string) : string :=
  match skip with
  | S n =>
      match s with
      | String _ s' => replaceFrom ignoreCase r template n s'
      | "" => ""
      end
  | O =>
      match matchAt ignoreCase r s with
      | Some (S n, c) =>
          template c ++
          match s with
          | String _ s' => replaceFrom ignoreCase r template n s'
          | "" => ""
          end
      | Some (O, c) =>
          template c ++
          match s with
          | String d s' => String d (replaceFrom ignoreCase r template O s')
          | "" => ""
          end
      | None =>
          match s with
          | String d s' => String d (replaceFrom ignoreCase r template O s')
          | "" => ""
          end
      end
  end.

Definition replaceAll (ignoreCase : bool) (r : regex) (template : string -> string)
    (s : string) : string :=
  replaceFrom ignoreCase r template O s.

(** [s.split(r)] for an expression that is one capture group and never
    matches the empty string: the pieces between the matches, with the
    text of each match between its neighbours.  [piece] holds the
    current piece, last code unit first. *)
Fixpoint splitFrom (r : regex) (skip : nat) (piece : string) (s : string)
    : list string :=
  match skip with
  | S n =>
      match s with
      | String _ s' => splitFrom r n piece s'
      | "" => [String.rev piece]
      end
  | O =>
      match s with
      | "" => [String.rev piece]
      | String d s' =>
          match matchAt false r s with
          | Some (S n, c) => String.rev piece :: c :: splitFrom r n "" s'
          | _ => splitFrom r O (String d piece) s'
          end
      end
  end.

Definition split (r : regex) (s : string) : list string := splitFrom r O "" s.

End Regex.

(* ================================================================== *)
(** ** The text repairs of the SQL editor *)
(* ================================================================== *)

Module Repair.
Import Regex.

(** [\s+], [\s*], [\w+] *)
Definition spaces1 : regex := ClsPlus Js.isSpace.
Definition spaces0 : regex := ClsStar Js.isSpace.
Definition word : regex := ClsPlus Js.isWord.

(** [(\w+\s+\w+)], and the lookahead [(?!\s*Q)] where the class [Q]
    holds the double quote, the single quote and the backtick. *)
Definition twoWords : regex := Cap (seq [word; spaces1; word]).
Definition noQuoteAhead : regex := NotAhead (Cat spaces0 (Cls Js.isQuote)).

(** [/CREATE\s+TABLE\s+(?:IF\s+NOT\s+EXISTS\s+)?(\w+\s+\w+)(?!\s*Q)\s*\(/gi] *)
Definition createTableRegex : regex :=
  seq [lit "CREATE"; spaces1; lit "TABLE"; spaces1;
       Opt (seq [lit "IF"; spaces1; lit "NOT"; spaces1; lit "EXISTS"; spaces1]);
       twoWords; noQuoteAhead; spaces0; Chr "("].

(** [/ALTER\s+TABLE\s+(\w+\s+\w+)(?!\s*Q)\s+/gi] *)
Definition alterTableRegex : regex :=
  seq [lit "ALTER"; spaces1; lit "TABLE"; spaces1;
       twoWords; noQuoteAhead; spaces1].

(** [/REFERENCES\s+(\w+\s+\w+)(?!\s*Q)\s*\(/gi] *)
Definition referencesRegex : regex :=
  seq [lit "REFERENCES"; spaces1; twoWords; noQuoteAhead; spaces0; Chr "("].

(** The replacement templates, [$1] being the capture. *)
Definition quoted (c : string) : string := Js.DQ ++ c ++ Js.DQ.
Definition createTableTemplate (c : string) : string := "CREATE TABLE " ++ quoted c ++ " (".
Definition alterTableTemplate (c : string) : string := "ALTER TABLE " ++ quoted c ++ " ".
Definition referencesTemplate (c : string) : string := "REFERENCES " ++ quoted c ++ " (".

Definition ensureTableNamesAreQuoted (sql : string) : string :=
  let result := replaceAll true createTableRegex createTableTemplate sql in
  let result := replaceAll true alterTableRegex alterTableTemplate result in
  let result := replaceAll true referencesRegex referencesTemplate result in
  result.

(** [/(-- [^\n]+)/], the expression the text is split on. *)
Definition commentRegex : regex :=
  Cap (Cat (lit "-- ") (ClsPlus (fun c => negb (Ascii.eqb c Js.lf)))).

(** [/ADD\s+CONSTRAINT\s+(?:Q)?([^Q\s]+)(?:Q)?/i], with [Q] one of the
    three quote characters. *)
Definition anyQuote : regex := Alt (Chr Js.dq) (Alt (Chr Js.bq) (Chr Js.sq)).
Definition constraintRegex : regex :=
  seq [lit "ADD"; spaces1; lit "CONSTRAINT"; spaces1; Opt anyQuote;
       Cap (ClsPlus (fun c => negb (Js.isQuote c || Js.isSpace c)));
       Opt anyQuote].

Definition sectionMarker : string := "Foreign Key Constraints".

(** The [for] loop over the lines of one section.  [uniqueConstraints]
    is the set declared before the sections are mapped, so it is handed
    from one section to the next. *)
Fixpoint uniqueLines (uniqueConstraints : gset string) (lines : list string)
    : gset string * list string :=
  match lines with
  | [] => (uniqueConstraints, [])
  | line :: rest =>
      if test true constraintRegex line && Js.startsWith "ALTER TABLE" (Js.trim line)
      then
        let constraintStatement := Js.trim line in
        if decide (constraintStatement ∈ uniqueConstraints)
        then uniqueLines uniqueConstraints rest
        else
          let '(seen, kept) := uniqueLines ({[constraintStatement]} ∪ uniqueConstraints) rest in
          (seen, line :: kept)
      else
        let '(seen, kept) := uniqueLines uniqueConstraints rest in
        (seen, line :: kept)
  end.

Fixpoint processSections (uniqueConstraints : gset string) (sections : list string)
    : list string :=
  match sections with
  | [] => []
  | section :: rest =>
      if negb (Js.includes sectionMarker section)
      then section :: processSections uniqueConstraints rest
      else
        let '(seen, kept) := uniqueLines uniqueConstraints (Js.splitChar Js.lf section) in
        Js.join Js.LF kept :: processSections seen rest
  end.

Definition removeDuplicateAlterTableStatements (sql : string) : string :=
  let sections := split commentRegex sql in
  Js.concat (processSections ∅ sections).

End Repair.

(* ================================================================== *)
(** ** The schema graph *)
(* ================================================================== *)

Record Position : Type := { x : Z; y : Z }.

(** A node style is a bag of CSS properties; this code only hands it on. *)
Definition Style : Type := list (string * string).

Record Column : Type := {
  title : string;
  colType : string;
  constraints : list string;
  colId : option string
}.

(** [label] is the empty string when the node carries none: the code
    only asks whether it is truthy.  [color] may be absent. *)
Record SchemaNodeData : Type := {
  label : string;
  schema : list Column;
  color : option string
}.

Record SchemaNode : Type := {
  id : string;
  type : option string;
  position : option Position;
  style : option Style;
  data : SchemaNodeData
}.

(** Edges and enum types pass through the editor untouched. *)
Record Edge : Type := { edgeId : string; source : string; target : string }.
Record EnumType : Type := { name : string; values : list string }.

Record Settings : Type := {
  caseSensitiveIdentifiers : bool;
  useInlineConstraints : bool
}.

Definition defaultSettings : Settings :=
  {| caseSensitiveIdentifiers := false; useInlineConstraints := true |}.

(** What the schema store holds. *)
Record Schema : Type := {
  nodes : list SchemaNode;
  edges : list Edge;
  enumTypes : list EnumType;
  storedSettings : option Settings;
  code : string
}.

(** What the parser hands back: a graph, nothing, or an exception with
    its message. *)
Record ParsedSchema : Type := {
  parsedNodes : list SchemaNode;
  parsedEdges : list Edge;
  parsedEnumTypes : option (list EnumType)
}.

Inductive ParseOutcome : Type :=
| Parsed (parsedSchema : ParsedSchema)
| ParsedNothing
| ParseThrows (message : string).

(** A truthy optional string: present and not empty. *)
Definition truthyOpt (o : option string) : bool :=
  match o with
  | Some s => Js.truthy s
  | None => false
  end.

(** [a || b] on optional strings. *)
Definition orElse (a b : option string) : option string :=
  if truthyOpt a then a else b.

(* ================================================================== *)
(** ** Reconciling a parsed graph with the previous one *)
(* ================================================================== *)

Definition sameId (newNode n : SchemaNode) : bool := String.eqb (id n) (id newNode).

Definition sameLabel (newNode n : SchemaNode) : bool :=
  Js.truthy (label (data n)) && Js.truthy (label (data newNode)) &&
  String.eqb (Js.toLowerCase (label (data n))) (Js.toLowerCase (label (data newNode))).

(** The node whose layout is kept: by id, and only when no node has the
    id, by label. *)
Definition nodeToPreserve (oldNodes : list SchemaNode) (newNode : SchemaNode)
    : option SchemaNode :=
  let existingNode := List.find (sameId newNode) oldNodes in
  let existingNodeByLabel :=
    match existingNode with
    | None => List.find (sameLabel newNode) oldNodes
    | Some _ => None
    end in
  match existingNode with
  | Some n => Some n
  | None => existingNodeByLabel
  end.

(** The callback of [parsedSchema.nodes.map]. *)
Definition preserveNode (oldNodes : list SchemaNode) (newNode : SchemaNode)
    : SchemaNode :=
  match nodeToPreserve oldNodes newNode with
  | Some old =>
      match position old with
      | Some p =>
          {| id := id newNode;
             type := type newNode;
             position := Some p;
             style := style old;
             data := {| label := label (data newNode);
                        schema := schema (data newNode);
                        color := orElse (color (data old)) (color (data newNode)) |} |}
      | None => newNode
      end
  | None => newNode
  end.

Definition preservedNodes (oldNodes newNodes : list SchemaNode) : list SchemaNode :=
  List.map (preserveNode oldNodes) newNodes.

(* ================================================================== *)
(** ** The SQL editor component *)
(* ================================================================== *)

Inductive Toast : Type :=
| ToastSuccess (message : string)
| ToastInfo (message description actionLabel : string).

(** The store's schema, the state hooks of the component, and the toasts
    raised so far. *)
Record EditorState : Type := {
  store : Schema;
  appliedSql : string;
  dbType : string;
  sqlContent : string;
  editableSql : string;
  isEditing : bool;
  error : option string;
  liveEditMode : bool;
  toasts : list Toast
}.

(** [schema.settings || defaultSettings] *)
Definition settings (st : EditorState) : Settings :=
  default defaultSettings (storedSettings (store st)).

(** A handler or an effect reads the values of the render it was created
    in and queues writes; an [Update] is such a queue of writes. *)
Definition Update : Type := EditorState -> EditorState.

Definition skip : Update := fun st => st.
Definition andThen (u1 u2 : Update) : Update := fun st => u2 (u1 st).

Declare Scope update_scope.
Delimit Scope update_scope with update.
Notation "u1 ;; u2" := (andThen u1 u2)
  (at level 100, u2 at level 200, right associativity) : update_scope.
Local Open Scope update_scope.

Definition when (b : bool) (u : Update) : Update := if b then u else skip.

(** *** The state setters *)

Definition withStore (f : Schema -> Schema) : Update := fun st =>
  {| store := f (store st); appliedSql := appliedSql st; dbType := dbType st;
     sqlContent := sqlContent st; editableSql := editableSql st;
     isEditing := isEditing st; error := error st;
     liveEditMode := liveEditMode st; toasts := toasts st |}.

Definition setAppliedSql (v : string) : Update := fun st =>
  {| store := store st; appliedSql := v; dbType := dbType st;
     sqlContent := sqlContent st; editableSql := editableSql st;
     isEditing := isEditing st; error := error st;
     liveEditMode := liveEditMode st; toasts := toasts st |}.

Definition setDbType (v : string) : Update := fun st =>
  {| store := store st; appliedSql := appliedSql st; dbType := v;
     sqlContent := sqlContent st; editableSql := editableSql st;
     isEditing := isEditing st; error := error st;
     liveEditMode := liveEditMode st; toasts := toasts st |}.

Definition setSqlContent (v : string) : Update := fun st =>
  {| store := store st; appliedSql := appliedSql st; dbType := dbType st;
     sqlContent := v; editableSql := editableSql st;
     isEditing := isEditing st; error := error st;
     liveEditMode := liveEditMode st; toasts := toasts st |}.

Definition setEditableSql (v : string) : Update := fun st =>
  {| store := store st; appliedSql := appliedSql st; dbType := dbType st;
     sqlContent := sqlContent st; editableSql := v;
     isEditing := isEditing st; error := error st;
     liveEditMode := liveEditMode st; toasts := toasts st |}.

Definition setIsEditing (v : bool) : Update := fun st =>
  {| store := store st; appliedSql := appliedSql st; dbType := dbType st;
     sqlContent := sqlContent st; editableSql := editableSql st;
     isEditing := v; error := error st;
     liveEditMode := liveEditMode st; toasts := toasts st |}.

Definition setError (v : option string) : Update := fun st =>
  {| store := store st; appliedSql := appliedSql st; dbType := dbType st;
     sqlContent := sqlContent st; editableSql := editableSql st;
     isEditing := isEditing st; error := v;
     liveEditMode := liveEditMode st; toasts := toasts st |}.

Definition setLiveEditMode (v : bool) : Update := fun st =>
  {| store := store st; appliedSql := appliedSql st; dbType := dbType st;
     sqlContent := sqlContent st; editableSql := editableSql st;
     isEditing := isEditing st; error := error st;
     liveEditMode := v; toasts := toasts st |}.

Definition toast (t : Toast) : Update := fun st =>
  {| store := store st; appliedSql := appliedSql st; dbType := dbType st;
     sqlContent := sqlContent st; editableSql := editableSql st;
     isEditing := isEditing st; error := error st;
     liveEditMode := liveEditMode st; toasts := toasts st ++ [t] |}.

(** *** The updaters of the schema store *)

(** Modelled from the spec: [updateNodes] of the schema store, whose
    hook ([useSchemaStore]) is not among the sources.  A commit replaces
    the graph wholesale, so the updater assigns the nodes and leaves the
    rest of the store as it is. *)
Definition updateNodes (v : list SchemaNode) : Update :=
  withStore (fun s => {| nodes := v; edges := edges s; enumTypes := enumTypes s;
                         storedSettings := storedSettings s; code := code s |}).

(** Modelled from the spec: [updateEdges] of the schema store; it
    assigns the edges. *)
Definition updateEdges (v : list Edge) : Update :=
  withStore (fun s => {| nodes := nodes s; edges := v; enumTypes := enumTypes s;
                         storedSettings := storedSettings s; code := code s |}).

(** Modelled from the spec: [updateSchema] of the schema store, called
    with the enum types only; it assigns them. *)
Definition updateEnumTypes (v : list EnumType) : Update :=
  withStore (fun s => {| nodes := nodes s; edges := edges s; enumTypes := v;
                         storedSettings := storedSettings s; code := code s |}).

(** Modelled from the spec: [updateSettings] of the schema store, always
    called with both settings; it assigns them. *)
Definition updateSettings (v : Settings) : Update :=
  withStore (fun s => {| nodes := nodes s; edges := edges s; enumTypes := enumTypes s;
                         storedSettings := Some v; code := code s |}).

(** Modelled from the spec: [updateCode] of the schema store; it assigns
    the SQL text kept with the graph. *)
Definition updateCode (v : string) : Update :=
  withStore (fun s => {| nodes := nodes s; edges := edges s; enumTypes := enumTypes s;
                         storedSettings := storedSettings s; code := v |}).

Section SqlEditor.

(** The generator, the parser and the general syntax fixer live in
    modules of their own; the component only calls them. *)
Variable generateSql :
  string -> list SchemaNode -> list Edge -> list EnumType -> Settings -> string.
Variable parseSqlToSchema : string -> ParseOutcome.
Variable fixCommonSqlIssues : string -> string.

(** The DDL of the graph a render sees. *)
Definition generated (r : EditorState) : string :=
  generateSql (dbType r) (nodes (store r)) (edges (store r))
    (enumTypes (store r)) (settings r).

(** The three repairs, in the order the apply handler runs them. *)
Definition repair (sql : string) : string :=
  let processedSql := Repair.ensureTableNamesAreQuoted sql in
  let processedSql := fixCommonSqlIssues processedSql in
  Repair.removeDuplicateAlterTableStatements processedSql.

(** [processedSql] as the parser receives it. *)
Definition processed (isLiveUpdate : bool) (sql : string) : string :=
  if negb isLiveUpdate then repair sql else sql.

Definition handleUpdateSchema (r : EditorState)
    (newNodes : list SchemaNode) (newEdges : list Edge)
    (newEnumTypes : list EnumType) : Update :=
  updateNodes newNodes ;;
  updateEdges newEdges ;;
  when (0 <? length newEnumTypes)%nat (updateEnumTypes newEnumTypes) ;;
  updateCode (editableSql r).

(** The outer [catch] guards against exceptions of the repairs and of
    the store; they are total functions here, so only the parser's
    exception is left. *)
Definition handleApplySqlChangesInternal (r : EditorState)
    (sql : string) (isLiveUpdate : bool) : Update :=
  setError None ;;
  if negb (Js.truthy (Js.trim sql)) then
    setError (Some "SQL cannot be empty")
  else
    let processedSql := processed isLiveUpdate sql in
    match parseSqlToSchema processedSql with
    | Parsed parsedSchema =>
        handleUpdateSchema r
          (preservedNodes (nodes (store r)) (parsedNodes parsedSchema))
          (parsedEdges parsedSchema)
          (default [] (parsedEnumTypes parsedSchema)) ;;
        setAppliedSql processedSql ;;
        when (negb isLiveUpdate)
          (toast (ToastSuccess "SQL changes applied successfully") ;;
           setIsEditing false)
    | ParsedNothing => skip
    | ParseThrows message =>
        setError (Some ("Failed to parse SQL: " ++ message))
    end.

Definition handleApplySqlChanges (r : EditorState) : Update :=
  handleApplySqlChangesInternal r (editableSql r) false.

Definition cancelEdit (r : EditorState) : Update :=
  setIsEditing false ;;
  setEditableSql (appliedSql r) ;;
  setError None.

Definition applyNowToast : Toast :=
  ToastInfo "Apply your changes to see updates with new settings"
            "Current edits are preserved until you apply them"
            "Apply Now".

Definition handleToggleCaseSensitive (r : EditorState) : Update :=
  updateSettings
    {| caseSensitiveIdentifiers := negb (caseSensitiveIdentifiers (settings r));
       useInlineConstraints := useInlineConstraints (settings r) |} ;;
  when (isEditing r) (toast applyNowToast).

Definition handleToggleInlineConstraints (r : EditorState) : Update :=
  updateSettings
    {| caseSensitiveIdentifiers := caseSensitiveIdentifiers (settings r);
       useInlineConstraints := negb (useInlineConstraints (settings r)) |} ;;
  when (isEditing r) (toast applyNowToast).

(** *** The effects, in the order the component declares them *)

(** On mount: default the settings and generate the DDL once. *)
Definition mountEffect (r : EditorState) : Update :=
  when (negb (bool_decide (is_Some (storedSettings (store r)))))
       (updateSettings defaultSettings) ;;
  when (negb (Js.truthy (appliedSql r)))
       (let initialSql := generated r in
        setAppliedSql initialSql ;;
        setSqlContent initialSql ;;
        setEditableSql initialSql).

(** Dependencies: [dbType]. *)
Definition dbTypeEffect (r : EditorState) : Update :=
  let newSql := generated r in
  setSqlContent newSql ;;
  when (negb (isEditing r))
       (setEditableSql newSql ;; setAppliedSql newSql ;; updateCode newSql).

(** Dependencies: the two settings. *)
Definition settingsEffect (r : EditorState) : Update :=
  if negb (isEditing r) then
    let newSql := generated r in
    setSqlContent newSql ;;
    setAppliedSql newSql ;;
    setEditableSql newSql ;;
    updateCode newSql
  else skip.

(** Dependencies: [editableSql], [liveEditMode], [isEditing]. *)
Definition liveUpdateEffect (r : EditorState) : Update :=
  if isEditing r && liveEditMode r && Js.truthy (editableSql r) then
    handleApplySqlChangesInternal r (editableSql r) true
  else skip.

(** Dependencies: [dbType] and the two settings. *)
Definition forceRegenerateEffect (r : EditorState) : Update :=
  let newSql := generated r in
  setSqlContent newSql ;;
  setAppliedSql newSql ;;
  when (negb (isEditing r)) (setEditableSql newSql) ;;
  updateCode newSql.

Definition dbTypeChanged (prev cur : EditorState) : bool :=
  negb (String.eqb (dbType prev) (dbType cur)).

Definition settingsChanged (prev cur : EditorState) : bool :=
  negb (Bool.eqb (caseSensitiveIdentifiers (settings prev))
                 (caseSensitiveIdentifiers (settings cur))) ||
  negb (Bool.eqb (useInlineConstraints (settings prev))
                 (useInlineConstraints (settings cur))).

Definition liveDepsChanged (prev cur : EditorState) : bool :=
  negb (String.eqb (editableSql prev) (editableSql cur)) ||
  negb (Bool.eqb (liveEditMode prev) (liveEditMode cur)) ||
  negb (Bool.eqb (isEditing prev) (isEditing cur)).

(** The effects that run after a render [cur] that follows the render
    [prev]: those with a changed dependency, each reading [cur]. *)
Definition runEffects (prev cur : EditorState) : EditorState :=
  (when (dbTypeChanged prev cur) (dbTypeEffect cur) ;;
   when (settingsChanged prev cur) (settingsEffect cur) ;;
   when (liveDepsChanged prev cur) (liveUpdateEffect cur) ;;
   when (dbTypeChanged prev cur || settingsChanged prev cur)
        (forceRegenerateEffect cur)) cur.

(** The first render runs every effect. *)
Definition mount (r : EditorState) : EditorState :=
  let st := (mountEffect r ;; dbTypeEffect r ;; settingsEffect r ;;
             liveUpdateEffect r ;; forceRegenerateEffect r) r in
  runEffects r st.

(** *** What the user can do *)

(** The buttons, the Live box, the dialect select and the two switches
    of the header call the handlers below.  The text area belongs to the
    editor component, which reports each change of the text through
    [setEditableSql]. *)

Inductive Event : Type :=
| ClickEdit
| ClickCancel
| ClickApply
| TypeSql (text : string)
| SetLive (on : bool)
| SelectDbType (dialect : string)
| ToggleCaseSensitive
| ToggleInlineConstraints.

Definition handle (ev : Event) (r : EditorState) : Update :=
  match ev with
  | ClickEdit => setIsEditing true
  | ClickCancel => cancelEdit r
  | ClickApply => handleApplySqlChanges r
  | TypeSql text => setEditableSql text
  | SetLive on => setLiveEditMode on
  | SelectDbType dialect => setDbType dialect
  | ToggleCaseSensitive => handleToggleCaseSensitive r
  | ToggleInlineConstraints => handleToggleInlineConstraints r
  end.

(** One user action: the handler, the effects of the render that
    follows, and the effects of the render those effects cause. *)
Definition dispatch (ev : Event) (st : EditorState) : EditorState :=
  let st1 := handle ev st st in
  let st2 := runEffects st st1 in
  runEffects st1 st2.

Definition dispatchAll (evs : list Event) (st : EditorState) : EditorState :=
  fold_left (fun s ev => dispatch ev s) evs st.

End SqlEditor.

(* ================================================================== *)
(** ** The column sidebar *)
(* ================================================================== *)

Module Sidebar.

(** The fields the column rows edit. *)
Inductive Field : Type := FieldTitle | FieldType.

Definition setField (field : Field) (value : string) (column : Column) : Column :=
  match field with
  | FieldTitle =>
      {| title := value; colType := colType column;
         constraints := constraints column; colId := colId column |}
  | FieldType =>
      {| title := title column; colType := value;
         constraints := constraints column; colId := colId column |}
  end.

(** A template literal prints an index in decimal. *)
Definition showIndex (index : nat) : string :=
  NilZero.string_of_uint (Nat.to_uint index).

Definition titles (columns : list Column) : list string := List.map title columns.

(** The value that is written: a title held by another column of the
    node gets the index as a suffix. *)
Definition uniqueValue (columns : list Column) (index : nat)
    (field : Field) (value : string) : string :=
  match field with
  | FieldTitle =>
      let existingTitles := delete index (titles columns) in
      if bool_decide (value ∈ existingTitles)
      then value ++ "_" ++ showIndex index
      else value
  | FieldType => value
  end.

(** What [updateColumn] does.  Without a selected node it returns at
    once.  With the index of a column it hands the schema to
    [onUpdateNode], that column replaced.  With an index past the last
    column the assignment makes the array grow, and what is handed over
    is no schema of columns: the columns of the node, then [holes] empty
    slots, then an object whose only property is the field written. *)
Inductive Updated : Type :=
| NoUpdate
| SentSchema (newSchema : list Column)
| SentSparse (columns : list Column) (holes : nat) (field : Field) (value : string).

Definition updateColumn (selectedNode : option SchemaNode)
    (index : nat) (field : Field) (value : string) : Updated :=
  match selectedNode with
  | None => NoUpdate
  | Some node =>
      let newSchema := schema (data node) in
      let value := uniqueValue (schema (data node)) index field value in
      match newSchema !! index with
      | Some column => SentSchema (<[index := setField field value column]> newSchema)
      | None => SentSparse newSchema (index - length newSchema) field value
      end
  end.

(** [addColumn]; [now] is the text of [Date.now()], the id of the new
    column. *)
Definition addColumn (now : string) (selectedNode : option SchemaNode)
    : option (list Column) :=
  match selectedNode with
  | None => None
  | Some node =>
      Some (schema (data node) ++
            [{| title := "new_column"; colType := "varchar";
                constraints := []; colId := Some now |}])%list
  end.

(** [removeColumn]: [splice(index, 1)] takes out the column at [index]
    and nothing when the index is past the end. *)
Definition removeColumn (selectedNode : option SchemaNode) (index : nat)
    : option (list Column) :=
  match selectedNode with
  | None => None
  | Some node => Some (delete index (schema (data node)))
  end.

(** What [toggleConstraint] does: it returns at once, it hands a schema
    to [onUpdateNode], or it reads [constraints] of an undefined column
    and throws. *)
Inductive Toggled : Type :=
| NotSent
| Sent (newSchema : list Column)
| ColumnUndefined.

Definition toggleConstraint (selectedNode : option SchemaNode)
    (index : nat) (constraint : string) : Toggled :=
  match selectedNode with
  | None => NotSent
  | Some node =>
      let newSchema := schema (data node) in
      match newSchema !! index with
      | None => ColumnUndefined
      | Some column =>
          let hasConstraint := bool_decide (constraint ∈ constraints column) in
          Sent (<[index :=
                   {| title := title column; colType := colType column;
                      constraints :=
                        if hasConstraint
                        then List.filter (fun c => negb (String.eqb c constraint))
                                         (constraints column)
                        else (constraints column ++ [constraint])%list;
                      colId := colId column |}]> newSchema)
      end
  end.

End Sidebar.

(* ================================================================== *)
(** ** Sample collaborators and states *)
(* ================================================================== *)

(** Stand-ins for the generator, the parser and the syntax fixer, used
    where a statement needs to run the component on a concrete input. *)
Module Sample.

Definition tableName (s : Settings) (n : SchemaNode) : string :=
  if caseSensitiveIdentifiers s
  then Repair.quoted (label (data n))
  else label (data n).

(** One [CREATE TABLE] line per node, the name quoted on request. *)
Definition generateSql (dialect : string) (ns : list SchemaNode) (es : list Edge)
    (ts : list EnumType) (s : Settings) : string :=
  Js.concat (List.map (fun n => "CREATE TABLE " ++ tableName s n ++ " ();") ns).

Definition emptyGraph : ParsedSchema :=
  {| parsedNodes := []; parsedEdges := []; parsedEnumTypes := None |}.

(** A parser that takes any text for the empty graph. *)
Definition acceptAll (sql : string) : ParseOutcome := Parsed emptyGraph.

(** A parser that rejects every text. *)
Definition rejectAll (sql : string) : ParseOutcome := ParseThrows "unexpected token".

(** A fixer that finds nothing to fix. *)
Definition fixNothing (sql : string) : string := sql.

Definition users : SchemaNode :=
  {| id := "t1"; type := Some "databaseSchema";
     position := Some {| x := 10; y := 20 |}; style := None;
     data := {| label := "Users"; schema := []; color := None |} |}.

Definition graph : Schema :=
  {| nodes := [users]; edges := []; enumTypes := [];
     storedSettings := Some defaultSettings; code := "CREATE TABLE Users ();" |}.

(** The editor at rest, showing the DDL of [graph]. *)
Definition clean : EditorState :=
  {| store := graph;
     appliedSql := "CREATE TABLE Users ();";
     dbType := "postgresql";
     sqlContent := "CREATE TABLE Users ();";
     editableSql := "CREATE TABLE Users ();";
     isEditing := false; error := None; liveEditMode := false; toasts := [] |}.

(** The user has pressed Edit and typed a statement. *)
Definition editing : EditorState :=
  {| store := graph;
     appliedSql := "CREATE TABLE Users ();";
     dbType := "postgresql";
     sqlContent := "CREATE TABLE Users ();";
     editableSql := "CREATE TABLE Accounts ();";
     isEditing := true; error := None; liveEditMode := false; toasts := [] |}.

(** The same with the Live box ticked. *)
Definition liveEditing : EditorState :=
  {| store := graph;
     appliedSql := "CREATE TABLE Users ();";
     dbType := "postgresql";
     sqlContent := "CREATE TABLE Users ();";
     editableSql := "CREATE TABLE Accounts ();";
     isEditing := true; error := None; liveEditMode := true; toasts := [] |}.

Definition foreignKey : string :=
  "ALTER TABLE orders ADD CONSTRAINT fk1 FOREIGN KEY (id) REFERENCES users(id);".

(** The foreign-key section as the editor shows it: the header comment
    and the same statement on two lines. *)
Definition foreignKeySection : string :=
  "-- Foreign Key Constraints" ++ Js.LF ++ foreignKey ++ Js.LF ++ foreignKey.

Definition quotedForeignKey : string :=
  "ALTER TABLE " ++ Repair.quoted "t" ++
  " ADD CONSTRAINT c FOREIGN KEY (x) REFERENCES u(y);".

(** A section whose marker stands in a block comment, with the same
    statement three times, the last two followed by a line comment. *)
Definition commentedSection : string :=
  "/* Foreign Key Constraints */" ++ Js.LF ++
  quotedForeignKey ++ Js.LF ++
  quotedForeignKey ++ " -- " ++ Js.LF ++
  quotedForeignKey ++ "-- x".

(** The table [Users] as the parser returns it from a text that spells
    it [users]: a fresh id and no layout yet. *)
Definition parsedUsers : SchemaNode :=
  {| id := "node-1"; type := Some "databaseSchema";
     position := Some {| x := 0; y := 0 |}; style := None;
     data := {| label := "users";
                schema := [{| title := "id"; colType := "uuid";
                              constraints := ["primary"]; colId := None |}];
                color := None |} |}.

Definition column (t : string) : Column :=
  {| title := t; colType := "varchar"; constraints := []; colId := None |}.

(** A table whose three columns have distinct titles. *)
Definition accounts : SchemaNode :=
  {| id := "t2"; type := Some "databaseSchema";
     position := Some {| x := 0; y := 0 |}; style := None;
     data := {| label := "accounts";
                schema := [column "name"; column "email"; column "name_1"];
                color := None |} |}.

(** A table of the previous graph that was never laid out: it has a
    style and a colour override but no position. *)
Definition unplaced : SchemaNode :=
  {| id := "t3"; type := Some "databaseSchema";
     position := None; style := Some [("width", "320px")];
     data := {| label := "Orders"; schema := []; color := Some "#ff0000" |} |}.

(** The same table as the parser returns it, under the same id. *)
Definition reparsed : SchemaNode :=
  {| id := "t3"; type := Some "databaseSchema";
     position := Some {| x := 0; y := 0 |}; style := None;
     data := {| label := "Orders";
                schema := [{| title := "id"; colType := "uuid";
                              constraints := ["primary"]; colId := None |}];
                color := None |} |}.

(** A parser that returns nothing, without throwing. *)
Definition parseNothing (sql : string) : ParseOutcome := ParsedNothing.

(** A section whose marker stands in a block comment, followed by the
    same statement on two lines; no line comment anywhere. *)
Definition blockSection : string :=
  "/* Foreign Key Constraints */" ++ Js.LF ++ foreignKey ++ Js.LF ++ foreignKey.

(** The node once the caller has merged the schema a sidebar handler
    sent into its data. *)
Definition withSchema (n : SchemaNode) (columns : list Column) : SchemaNode :=
  {| id := id n; type := type n; position := position n; style := style n;
     data := {| label := label (data n); schema := columns;
                color := color (data n) |} |}.

End Sample.

(* ================================================================== *)
(** ** Notions used by the statements *)
(* ================================================================== *)

(** The changes of a setting that bear on the generated DDL: the two
    toggles, and the choice of another dialect. *)
Definition changesSetting (ev : Event) (st : EditorState) : bool :=
  match ev with
  | ToggleCaseSensitive | ToggleInlineConstraints => true
  | SelectDbType dialect => negb (String.eqb (dbType st) dialect)
  | _ => false
  end.

(** The component as [useState] creates it, over the schema of the
    store. *)
Definition initialState (s : Schema) : EditorState :=
  {| store := s; appliedSql := ""; dbType := "postgresql"; sqlContent := "";
     editableSql := ""; isEditing := false; error := None;
     liveEditMode := false; toasts := [] |}.

(** The lines the de-duplication looks at: those on which the
    constraint expression matches and that start, once trimmed, with
    [ALTER TABLE]. *)
Definition isConstraintStatement (line : string) : bool :=
  Regex.test true Repair.constraintRegex line &&
  Js.startsWith "ALTER TABLE" (Js.trim line).

(** The trimmed statements among some lines. *)
Definition statementsOf (lines : list string) : list string :=
  List.map Js.trim (List.filter isConstraintStatement lines).

(** What a handler or an effect may write without another effect
    having to run: it leaves the dialect, the settings, the editing flag
    and the live flag alone, and the editable text too when the render
    [r] it reads is in the editing state. *)
Definition keepsDeps (r : EditorState) (u : Update) : Prop :=
  forall s : EditorState,
    dbType (u s) = dbType s /\
    storedSettings (store (u s)) = storedSettings (store s) /\
    isEditing (u s) = isEditing s /\
    liveEditMode (u s) = liveEditMode s /\
    (isEditing r = true -> editableSql (u s) = editableSql s).

(** The graph proper: the nodes, the edges and the enum types. *)
Definition graphOf (st : EditorState) : list SchemaNode * list Edge * list EnumType :=
  (nodes (store st), edges (store st), enumTypes (store st)).

(** [old] is the first node of the list with the property [P]. *)
Definition firstWith (P : SchemaNode -> Prop) (l : list SchemaNode)
    (old : SchemaNode) : Prop :=
  exists before after,
    l = (before ++ old :: after)%list /\ P old /\ forall n, In n before -> ~ P n.

(** The table of the previous graph that a parsed table is matched
    with: the first one with its id; and when no table has its id and
    the parsed table is labelled, the first one with its label, the
    case of the letters set aside. *)
Definition matchedWith (oldNodes : list SchemaNode) (newNode old : SchemaNode) : Prop :=
  firstWith (fun n => id n = id newNode) oldNodes old \/
  ((forall n, In n oldNodes -> id n <> id newNode) /\
   label (data newNode) <> "" /\
   firstWith (fun n => Js.toLowerCase (label (data n)) =
                       Js.toLowerCase (label (data newNode))) oldNodes old).

(** The handlers that raise the toast. *)
Definition isToggle (ev : Event) : bool :=
  match ev with
  | ToggleCaseSensitive | ToggleInlineConstraints => true
  | _ => false
  end.

(** The settings after one of the two toggles: the handler negates its
    setting and hands both to [updateSettings]. *)
Definition flipOf (ev : Event) (s : Settings) : Settings :=
  match ev with
  | ToggleCaseSensitive =>
      {| caseSensitiveIdentifiers := negb (caseSensitiveIdentifiers s);
         useInlineConstraints := useInlineConstraints s |}
  | ToggleInlineConstraints =>
      {| caseSensitiveIdentifiers := caseSensitiveIdentifiers s;
         useInlineConstraints := negb (useInlineConstraints s) |}
  | _ => s
  end.

Section Specified.

Variable parseSqlToSchema : string -> ParseOutcome.
Variable fixCommonSqlIssues : string -> string.

(** The live step as the specification words it: a change of the text
    runs the repair, then the parse of the repaired text, then the
    reconciliation and the commit, and the editor stays in live
    editing; a parse failure shows an error and keeps the text. *)
Definition liveUpdateAsSpecified (st : EditorState) (text : string) : EditorState :=
  let typed := setEditableSql text st in
  let repaired := repair fixCommonSqlIssues text in
  match parseSqlToSchema repaired with
  | Parsed parsedSchema =>
      (setError None ;;
       handleUpdateSchema typed
         (preservedNodes (nodes (store st)) (parsedNodes parsedSchema))
         (parsedEdges parsedSchema)
         (default [] (parsedEnumTypes parsedSchema)) ;;
       setAppliedSql repaired) typed
  | ParsedNothing => setError None typed
  | ParseThrows message =>
      setError (Some ("Failed to parse SQL: " ++ message)) typed
  end.

End Specified.

(** A text that is empty or holds white space only. *)
Fixpoint isBlank (s : string) : bool :=
  match s with
  | "" => true
  | String c s' => Js.isSpace c && isBlank s'
  end.

(** Case analysis on the condition of the first conditional of the goal. *)
Ltac split_if :=
  match goal with
  | |- context [if ?c then _ else _] => destruct c
  end.

(* ================================================================== *)
(** ** Facts about the string primitives *)
(* ================================================================== *)

Lemma trimStart_blank (s : string) : isBlank s = true -> Js.trimStart s = "".
Proof.
  induction s as [|c s IH]; simpl; [reflexivity|].
  intros [Hc Hs]%andb_prop. rewrite Hc. exact (IH Hs).
Qed.

Lemma trim_blank (s : string) : isBlank s = true -> Js.trim s = "".
Proof. intros H. unfold Js.trim. now rewrite trimStart_blank. Qed.

Lemma trimEnd_empty (s : string) : Js.trimEnd s = "" -> isBlank s = true.
Proof.
  induction s as [|c s IH]; simpl; [reflexivity|].
  destruct (Js.isSpace c); simpl; [|discriminate].
  destruct (Js.trimEnd s) eqn:E; simpl; [intros _; now apply IH | discriminate].
Qed.

Lemma trimStart_empty (s : string) : Js.trimStart s = "" -> isBlank s = true.
Proof.
  induction s as [|c s IH]; simpl; [reflexivity|].
  destruct (Js.isSpace c); simpl; [exact IH | discriminate].
Qed.

(** [trim] leaves nothing exactly of the blank texts. *)
Lemma trim_empty_iff (s : string) : Js.trim s = "" <-> isBlank s = true.
Proof.
  split; [|apply trim_blank].
  unfold Js.trim. intros H. apply trimEnd_empty in H.
  induction s as [|c s IH]; simpl in *; [reflexivity|].
  destruct (Js.isSpace c) eqn:Hc; simpl in *; [now apply IH|].
  now rewrite Hc in H.
Qed.

Lemma append_cons (c : ascii) (a b : string) : String c a ++ b = String c (a ++ b).
Proof. reflexivity. Qed.

Lemma append_nil_l (a : string) : "" ++ a = a.
Proof. reflexivity. Qed.

Lemma append_nil_r (s : string) : s ++ "" = s.
Proof. induction s as [|c s IH]; [reflexivity | now rewrite append_cons, IH]. Qed.

Lemma append_assoc (a b c : string) : (a ++ b) ++ c = a ++ (b ++ c).
Proof. induction a as [|x a IH]; [reflexivity | now rewrite !append_cons, IH]. Qed.

Lemma length_append (a b : string) :
  String.length (a ++ b) = (String.length a + String.length b)%nat.
Proof.
  induction a as [|x a IH]; [reflexivity|].
  rewrite append_cons. simpl. now rewrite IH.
Qed.

Lemma take_append (a b : string) : Js.take (String.length a) (a ++ b) = a.
Proof.
  induction a as [|x a IH]; [now destruct b|].
  rewrite append_cons. simpl. now rewrite IH.
Qed.

Lemma drop_append (a b : string) : Js.drop (String.length a) (a ++ b) = b.
Proof.
  induction a as [|x a IH]; [now destruct b|].
  rewrite append_cons. simpl. exact IH.
Qed.

Lemma rev_app_append (p acc : string) : String.rev_app p acc = String.rev p ++ acc.
Proof.
  unfold String.rev. revert acc. induction p as [|d p IH]; intros acc; simpl.
  - reflexivity.
  - rewrite (IH (String d acc)), (IH (String d "")), append_assoc. reflexivity.
Qed.

Lemma rev_cons (d : ascii) (p : string) :
  String.rev (String d p) = String.rev p ++ String d "".
Proof. unfold String.rev at 1. simpl. apply rev_app_append. Qed.

(* ================================================================== *)
(** ** The matcher and the split *)
(* ================================================================== *)

Section Matcher.
Import Regex.

(** A successful run ends in a call of the continuation on a suffix of
    the text. *)
Lemma star_result (p : ascii -> bool) (s : string) (k : string -> option outcome)
    (m : outcome) :
  star p s k = Some m -> exists pre t, s = pre ++ t /\ k t = Some m.
Proof.
  induction s as [|c s IH]; simpl.
  - intros H. now exists "", "".
  - destruct (p c).
    + destruct (star p s k) as [m'|] eqn:E.
      * intros [= ->]. destruct (IH eq_refl) as (pre & t & -> & Hk).
        now exists (String c pre), t.
      * intros H. now exists "", (String c s).
    + intros H. now exists "", (String c s).
Qed.

Lemma run_result (ignoreCase : bool) (r : regex) :
  forall (s : string) (cap : option string)
         (k : string -> option string -> option outcome) (m : outcome),
  run ignoreCase r s cap k = Some m ->
  exists pre t c, s = pre ++ t /\ k t c = Some m.
Proof.
  induction r as [|c|p|p|p|r1 IH1 r2 IH2|r1 IH1 r2 IH2|r1 IH1|r1 IH1|r1 IH1];
    intros s cap k m; simpl.
  - intros H. now exists "", s, cap.
  - destruct s as [|d s]; [discriminate|].
    destruct (sameChar ignoreCase c d); [|discriminate].
    intros H. now exists (String d ""), s, cap.
  - destruct s as [|d s]; [discriminate|].
    destruct (p d); [|discriminate].
    intros H. now exists (String d ""), s, cap.
  - destruct s as [|d s]; [discriminate|].
    destruct (p d); [|discriminate].
    intros H. apply star_result in H as (pre & t & -> & Hk).
    now exists (String d pre), t, cap.
  - intros H. apply star_result in H as (pre & t & -> & Hk).
    now exists pre, t, cap.
  - intros H. apply IH1 in H as (pre1 & t1 & c1 & -> & H).
    apply IH2 in H as (pre2 & t2 & c2 & -> & H).
    exists (pre1 ++ pre2), t2, c2. now rewrite append_assoc.
  - destruct (run ignoreCase r1 s cap k) as [m'|] eqn:E.
    + intros [= ->]. now apply IH1 in E.
    + apply IH2.
  - destruct (run ignoreCase r1 s cap k) as [m'|] eqn:E.
    + intros [= ->]. now apply IH1 in E.
    + intros H. now exists "", s, cap.
  - intros H. apply IH1 in H as (pre & t & c & -> & H).
    now exists pre, t, (Some (Js.take (String.length (pre ++ t) - String.length t) (pre ++ t))).
  - destruct (run ignoreCase r1 s cap _); [discriminate|].
    intros H. now exists "", s, cap.
Qed.

(** A match of an expression that is one capture group: the capture is
    the matched text. *)
Lemma matchAt_capture (ignoreCase : bool) (r : regex) (s : string) (n : nat) (c : string) :
  matchAt ignoreCase (Cap r) s = Some (n, c) ->
  exists t, s = c ++ t /\ String.length c = n.
Proof.
  unfold matchAt. simpl.
  destruct (run ignoreCase r s None _) as [[t' c']|] eqn:E; [|discriminate].
  apply run_result in E as (pre & t & c0 & -> & Hk).
  injection Hk as <- <-.
  intros [= <- <-]. simpl.
  rewrite length_append, Nat.add_sub, take_append.
  now exists t.
Qed.

Lemma splitFrom_concat (r : regex) :
  (forall s n c, matchAt false r s = Some (n, c) ->
     exists t, s = c ++ t /\ String.length c = n) ->
  forall (s : string) (skip : nat) (piece : string),
  Js.concat (splitFrom r skip piece s) = String.rev piece ++ Js.drop skip s.
Proof.
  intros Hr. induction s as [|d s IH]; intros skip piece.
  - destruct skip; simpl; reflexivity.
  - destruct skip as [|skip]; simpl.
    + destruct (matchAt false r (String d s)) as [[[|n] c]|] eqn:E.
      * rewrite IH, rev_cons, append_assoc. reflexivity.
      * apply Hr in E as (t & Hs & Hlen).
        destruct c as [|d' c]; [discriminate|].
        rewrite append_cons in Hs. injection Hs as <- ->.
        injection Hlen as <-.
        change (Js.concat (String.rev piece :: String d c :: splitFrom r (String.length c) "" (c ++ t)))
          with (String.rev piece ++ String d c ++ Js.concat (splitFrom r (String.length c) "" (c ++ t))).
        rewrite IH, drop_append. reflexivity.
      * rewrite IH, rev_cons, append_assoc. reflexivity.
    + apply IH.
Qed.

(** The sections of the split, put together, are the text. *)
Lemma split_concat (s : string) : Js.concat (split Repair.commentRegex s) = s.
Proof.
  unfold split. rewrite splitFrom_concat; [reflexivity|].
  intros s' n c. apply matchAt_capture.
Qed.

Lemma includes_cons (sub : string) (d : ascii) (s : string) :
  Js.includes sub (String d s) = Js.startsWith sub (String d s) || Js.includes sub s.
Proof. reflexivity. Qed.

(** A section without a line feed is one line. *)
Lemma splitChar_single (section : string) :
  Js.includes Js.LF section = false -> Js.splitChar Js.lf section = [section].
Proof.
  induction section as [|d s IH]; [reflexivity|].
  rewrite includes_cons. intros [H1 H2]%orb_false_elim.
  unfold Js.LF in H1. cbn [Js.startsWith] in H1. cbn [Js.splitChar].
  destruct (Ascii.eqb Js.lf d); [discriminate H1|].
  now rewrite (IH H2).
Qed.

(** A one-line section that opens a comment is kept whatever the set
    holds: it does not start with [ALTER TABLE]. *)
Lemma comment_line_kept (seen : gset string) (section : string) :
  Js.startsWith "-- " section = true ->
  Js.includes Js.LF section = false ->
  Repair.uniqueLines seen (Js.splitChar Js.lf section) = (seen, [section]).
Proof.
  intros Hstart Hline. rewrite (splitChar_single section Hline).
  cbn [Repair.uniqueLines].
  assert (Halter : Js.startsWith "ALTER TABLE" (Js.trim section) = false).
  { destruct section as [|d s]; [discriminate Hstart|].
    cbn [Js.startsWith] in Hstart.
    destruct (Ascii.eqb "-" d) eqn:Hd; [|discriminate Hstart].
    apply Ascii.eqb_eq in Hd. subst d. reflexivity. }
  rewrite Halter, andb_false_r. reflexivity.
Qed.

Lemma processSections_comments (sections : list string) :
  (forall section, In section sections ->
     Js.includes Repair.sectionMarker section = true ->
     Js.startsWith "-- " section = true /\ Js.includes Js.LF section = false) ->
  forall seen, Repair.processSections seen sections = sections.
Proof.
  induction sections as [|section rest IH]; intros Hmarker seen; [reflexivity|].
  simpl. destruct (Js.includes Repair.sectionMarker section) eqn:Hm; simpl.
  - destruct (Hmarker section (or_introl eq_refl) Hm) as [Hs Hl].
    rewrite (comment_line_kept seen section Hs Hl). simpl.
    f_equal. apply IH. intros s Hin. apply Hmarker. now right.
  - f_equal. apply IH. intros s Hin. apply Hmarker. now right.
Qed.

(** X13. The de-duplication returns its input whenever the marker occurs
    in line comments only: each such comment is a section of its own, one
    line long, and every other section is skipped. *)
Lemma dedup_needs_marker_outside_comments (sql : string) :
  (forall section, In section (split Repair.commentRegex sql) ->
     Js.includes Repair.sectionMarker section = true ->
     Js.startsWith "-- " section = true /\ Js.includes Js.LF section = false) ->
  Repair.removeDuplicateAlterTableStatements sql = sql.
Proof.
  intros Hmarker. unfold Repair.removeDuplicateAlterTableStatements.
  rewrite (processSections_comments _ Hmarker). apply split_concat.
Qed.

End Matcher.

(* ================================================================== *)
(** ** The apply handler *)
(* ================================================================== *)

Section ApplyHandler.

Variable parseSqlToSchema : string -> ParseOutcome.
Variable fixCommonSqlIssues : string -> string.

Local Abbreviation applySql :=
  (handleApplySqlChangesInternal parseSqlToSchema fixCommonSqlIssues).

(** With a blank text the handler only writes the error. *)
Lemma apply_blank (r st : EditorState) (sql : string) (isLiveUpdate : bool) :
  isBlank sql = true ->
  applySql r sql isLiveUpdate st = setError (Some "SQL cannot be empty") st.
Proof.
  intros H. unfold handleApplySqlChangesInternal, andThen.
  now rewrite (trim_blank _ H).
Qed.

(** When the parser throws the handler only writes the error. *)
Lemma apply_throws (r st : EditorState) (sql message : string) (isLiveUpdate : bool) :
  Js.truthy (Js.trim sql) = true ->
  parseSqlToSchema (processed fixCommonSqlIssues isLiveUpdate sql) = ParseThrows message ->
  applySql r sql isLiveUpdate st = setError (Some ("Failed to parse SQL: " ++ message)) st.
Proof.
  intros Hne Hparse. unfold handleApplySqlChangesInternal, andThen.
  now rewrite Hne, Hparse.
Qed.

(** When the parser yields a graph, the handler commits the merged
    nodes, the edges and the text it parsed. *)
Lemma apply_parsed (r st : EditorState) (sql : string) (p : ParsedSchema)
    (isLiveUpdate : bool) :
  Js.truthy (Js.trim sql) = true ->
  parseSqlToSchema (processed fixCommonSqlIssues isLiveUpdate sql) = Parsed p ->
  applySql r sql isLiveUpdate st =
    (handleUpdateSchema r (preservedNodes (nodes (store r)) (parsedNodes p))
       (parsedEdges p) (default [] (parsedEnumTypes p)) ;;
     setAppliedSql (processed fixCommonSqlIssues isLiveUpdate sql) ;;
     when (negb isLiveUpdate)
       (toast (ToastSuccess "SQL changes applied successfully") ;;
        setIsEditing false))
    (setError None st).
Proof.
  intros Hne Hparse. unfold handleApplySqlChangesInternal, andThen.
  now rewrite Hne, Hparse.
Qed.

(** C1. When parsing fails, that is, the text is not blank and the
    parser throws on the text handed to it, the apply handler leaves
    the committed graph (nodes, edges, enum types and stored code), the
    displayed DDL, the applied SQL and the user's editable text as they
    were, stays in the editing state it was in, and sets the inline
    error message; nothing of the graph is committed. *)
Theorem C1_failed_parse_commits_nothing
    (r st : EditorState) (sql message : string) (isLiveUpdate : bool) :
  Js.truthy (Js.trim sql) = true ->
  parseSqlToSchema (processed fixCommonSqlIssues isLiveUpdate sql) = ParseThrows message ->
  let st' := applySql r sql isLiveUpdate st in
  store st' = store st /\
  sqlContent st' = sqlContent st /\
  appliedSql st' = appliedSql st /\
  editableSql st' = editableSql st /\
  isEditing st' = isEditing st /\
  liveEditMode st' = liveEditMode st /\
  dbType st' = dbType st /\
  toasts st' = toasts st /\
  error st' = Some ("Failed to parse SQL: " ++ message).
Proof.
  intros Hne Hparse st'. subst st'.
  rewrite (apply_throws r st sql message isLiveUpdate Hne Hparse).
  repeat split.
Qed.

(** C10. Applying a text that is empty or holds white space only fails
    before any repair or parse: whatever the parser and the fixer would
    do, the handler sets the error [SQL cannot be empty] and leaves the
    graph, the displayed DDL, the texts and the editing state alone. *)
Theorem C10_blank_sql_is_rejected
    (r st : EditorState) (sql : string) (isLiveUpdate : bool) :
  isBlank sql = true ->
  let st' := applySql r sql isLiveUpdate st in
  error st' = Some "SQL cannot be empty" /\
  store st' = store st /\
  sqlContent st' = sqlContent st /\
  appliedSql st' = appliedSql st /\
  editableSql st' = editableSql st /\
  isEditing st' = isEditing st /\
  liveEditMode st' = liveEditMode st /\
  dbType st' = dbType st /\
  toasts st' = toasts st.
Proof.
  intros Hblank st'. subst st'.
  rewrite (apply_blank r st sql isLiveUpdate Hblank).
  repeat split.
Qed.

End ApplyHandler.

(* ================================================================== *)
(** ** Reconciliation *)
(* ================================================================== *)

Lemma find_first {A : Type} (f : A -> bool) (l : list A) (a : A) :
  In a l -> f a = true -> exists m, List.find f l = Some m /\ In m l /\ f m = true.
Proof.
  intros Hin Hf. destruct (List.find f l) as [m|] eqn:E.
  - exists m. apply find_some in E. tauto.
  - apply (find_none f l E) in Hin. congruence.
Qed.

Lemma toLowerCase_empty (s : string) : Js.toLowerCase s = "" -> s = "".
Proof. destruct s; simpl; [reflexivity | discriminate]. Qed.

Lemma truthy_nonempty (s : string) : Js.truthy s = true <-> s <> "".
Proof. destruct s; simpl; split; congruence. Qed.

(** [sameLabel] is equality of the lower-cased labels of two labelled
    nodes. *)
Lemma sameLabel_spec (newNode n : SchemaNode) :
  sameLabel newNode n = true <->
  label (data newNode) <> "" /\
  Js.toLowerCase (label (data n)) = Js.toLowerCase (label (data newNode)).
Proof.
  unfold sameLabel. rewrite !andb_true_iff, String.eqb_eq, !truthy_nonempty.
  split; [tauto|]. intros [Hnew Heq]. repeat split; try assumption.
  intros Hn. rewrite Hn in Heq. simpl in Heq. symmetry in Heq.
  now apply toLowerCase_empty in Heq.
Qed.

Lemma sameId_spec (newNode n : SchemaNode) :
  sameId newNode n = true <-> id n = id newNode.
Proof. unfold sameId. apply String.eqb_eq. Qed.

Lemma find_firstWith (f : SchemaNode -> bool) (P : SchemaNode -> Prop)
    (l : list SchemaNode) (old : SchemaNode) :
  (forall n, f n = true <-> P n) ->
  (List.find f l = Some old <-> firstWith P l old).
Proof.
  intros Hspec. induction l as [|n l IH]; cbn [List.find].
  - split; [discriminate|]. intros (before & after & Hl & _).
    now destruct before.
  - destruct (f n) eqn:Hn.
    + split.
      * intros [= <-]. exists [], l. repeat split; [now apply Hspec | intros ? []].
      * intros ([|n' before] & after & Hl & Hold & Hbefore).
        -- now injection Hl as -> _.
        -- injection Hl as <- _. exfalso. apply (Hbefore n); [now left|].
           now apply Hspec.
    + rewrite IH. split.
      * intros (before & after & -> & Hold & Hbefore).
        exists (n :: before), after. repeat split; [exact Hold|].
        intros n' [<-|Hin]; [|now apply Hbefore].
        rewrite <- Hspec. congruence.
      * intros ([|n' before] & after & Hl & Hold & Hbefore).
        -- injection Hl as <- _. apply Hspec in Hold. congruence.
        -- injection Hl as <- ->. exists before, after.
           repeat split; [exact Hold|]. intros n' Hin. apply Hbefore. now right.
Qed.

(** The node whose layout is kept is the matched one. *)
Lemma nodeToPreserve_matched (oldNodes : list SchemaNode) (newNode old : SchemaNode) :
  nodeToPreserve oldNodes newNode = Some old <-> matchedWith oldNodes newNode old.
Proof.
  unfold nodeToPreserve, matchedWith.
  rewrite <- (find_firstWith (sameId newNode)) by apply sameId_spec.
  destruct (List.find (sameId newNode) oldNodes) as [n|] eqn:Eid.
  - split; [now left|]. intros [H|(Hno & _)]; [exact H|].
    apply find_some in Eid as [Hin Hs]. apply sameId_spec in Hs.
    now apply Hno in Hin.
  - assert (Hno : forall n, In n oldNodes -> id n <> id newNode).
    { intros n Hin Hn. apply sameId_spec in Hn.
      now rewrite (find_none _ _ Eid n Hin) in Hn. }
    split.
    + intros Hl. right. split; [exact Hno|].
      assert (Hnew : label (data newNode) <> "").
      { apply find_some in Hl as [_ Hs]. now apply sameLabel_spec in Hs. }
      split; [exact Hnew|].
      apply (find_firstWith (sameLabel newNode)); [|exact Hl].
      intros n. rewrite sameLabel_spec. tauto.
    + intros [H|(_ & Hnew & Hl)]; [discriminate H|].
      apply (find_firstWith (sameLabel newNode)) in Hl; [exact Hl|].
      intros n. rewrite sameLabel_spec. tauto.
Qed.

Lemma preservedNodes_lookup (oldNodes newNodes : list SchemaNode) (i : nat) :
  preservedNodes oldNodes newNodes !! i = preserveNode oldNodes <$> newNodes !! i.
Proof.
  unfold preservedNodes. revert i.
  induction newNodes as [|n l IH]; intros [|i]; try reflexivity. apply IH.
Qed.

(** C4. The nodes that an accepted apply commits are the parsed tables
    in their order, each reconciled with the previous graph.  A parsed
    table is matched with the first previous table that has its id, and
    when none has, with the first one that has its label, the case set
    aside.  On a match with a table that has a position, the position
    and the style of the old table are put on the new table, and its
    colour override when it has one, the new table keeping its own
    colour otherwise; the id, the type, the label and the columns with
    their constraints are always those of the new table.  A table
    matched with a table that has no position, and a table without a
    match, pass through as parsed.  So an old table labelled [Users] at
    (10,20) and a parsed table with another id labelled [users] give a
    table at (10,20). *)
Theorem C4_reconcile_keeps_layout_only (oldNodes newNodes : list SchemaNode) :
  let merged := preservedNodes oldNodes newNodes in
  length merged = length newNodes /\
  (forall i newNode, newNodes !! i = Some newNode ->
     exists m, merged !! i = Some m /\
       (id m = id newNode /\ type m = type newNode /\
        label (data m) = label (data newNode) /\
        schema (data m) = schema (data newNode)) /\
       (forall old, In old oldNodes -> id old = id newNode ->
          exists o, matchedWith oldNodes newNode o /\ id o = id newNode) /\
       (forall old, In old oldNodes ->
          (forall n, In n oldNodes -> id n <> id newNode) ->
          label (data newNode) <> "" ->
          Js.toLowerCase (label (data old)) = Js.toLowerCase (label (data newNode)) ->
          exists o, matchedWith oldNodes newNode o /\
                    Js.toLowerCase (label (data o)) =
                    Js.toLowerCase (label (data newNode))) /\
       (forall o p, matchedWith oldNodes newNode o -> position o = Some p ->
          position m = Some p /\
          style m = style o /\
          (forall c, color (data o) = Some c -> c <> "" -> color (data m) = Some c) /\
          (color (data o) = None \/ color (data o) = Some "" ->
           color (data m) = color (data newNode))) /\
       (forall o, matchedWith oldNodes newNode o -> position o = None -> m = newNode) /\
       ((forall n, In n oldNodes ->
           id n <> id newNode /\
           ~ (label (data newNode) <> "" /\
              Js.toLowerCase (label (data n)) = Js.toLowerCase (label (data newNode)))) ->
        m = newNode)) /\
  (forall (parseSqlToSchema : string -> ParseOutcome)
          (fixCommonSqlIssues : string -> string)
          (r st : EditorState) (sql : string) (isLiveUpdate : bool) (p : ParsedSchema),
     Js.truthy (Js.trim sql) = true ->
     parseSqlToSchema (processed fixCommonSqlIssues isLiveUpdate sql) = Parsed p ->
     nodes (store (handleApplySqlChangesInternal parseSqlToSchema fixCommonSqlIssues
                     r sql isLiveUpdate st)) =
     preservedNodes (nodes (store r)) (parsedNodes p)) /\
  (forall old newNode,
     label (data old) = "Users" -> position old = Some {| x := 10; y := 20 |} ->
     label (data newNode) = "users" -> id newNode <> id old ->
     exists m, preservedNodes [old] [newNode] = [m] /\
               position m = Some {| x := 10; y := 20 |}).
Proof.
  intros merged. subst merged. repeat apply conj.
  - unfold preservedNodes. apply length_map.
  - intros i newNode Hi. exists (preserveNode oldNodes newNode).
    split; [now rewrite preservedNodes_lookup, Hi|].
    repeat apply conj.
    + unfold preserveNode.
      destruct (nodeToPreserve oldNodes newNode) as [m|]; [|reflexivity].
      now destruct (position m).
    + unfold preserveNode.
      destruct (nodeToPreserve oldNodes newNode) as [m|]; [|reflexivity].
      now destruct (position m).
    + unfold preserveNode.
      destruct (nodeToPreserve oldNodes newNode) as [m|]; [|reflexivity].
      now destruct (position m).
    + unfold preserveNode.
      destruct (nodeToPreserve oldNodes newNode) as [m|]; [|reflexivity].
      now destruct (position m).
    + intros old Hin Hid.
      destruct (find_first (sameId newNode) oldNodes old Hin) as (m & Hm & _ & Hfm).
      { now apply sameId_spec. }
      exists m. split; [|now apply sameId_spec].
      apply nodeToPreserve_matched. unfold nodeToPreserve. now rewrite Hm.
    + intros old Hin Hnoid Hlabel Hlow.
      assert (Hnone : List.find (sameId newNode) oldNodes = None).
      { destruct (List.find (sameId newNode) oldNodes) as [n|] eqn:E; [|reflexivity].
        apply find_some in E. destruct E as [Hn Hs].
        apply sameId_spec in Hs. now apply Hnoid in Hn. }
      destruct (find_first (sameLabel newNode) oldNodes old Hin) as (m & Hm & _ & Hfm).
      { now apply sameLabel_spec. }
      exists m. split; [|now apply sameLabel_spec in Hfm].
      apply nodeToPreserve_matched. unfold nodeToPreserve. now rewrite Hnone, Hm.
    + intros o p Ho Hp. apply nodeToPreserve_matched in Ho.
      unfold preserveNode. rewrite Ho, Hp. cbn [position style data color].
      repeat split.
      * intros c Hc Hne. rewrite Hc. unfold orElse, truthyOpt.
        destruct c; [congruence | reflexivity].
      * intros [Hc|Hc]; rewrite Hc; reflexivity.
    + intros o Ho Hp. apply nodeToPreserve_matched in Ho.
      unfold preserveNode. now rewrite Ho, Hp.
    + intros Hno. unfold preserveNode, nodeToPreserve.
      destruct (List.find (sameId newNode) oldNodes) as [n|] eqn:E.
      { apply find_some in E. destruct E as [Hn Hs].
        apply sameId_spec in Hs. destruct (Hno n Hn) as [Hc _]. now apply Hc in Hs. }
      destruct (List.find (sameLabel newNode) oldNodes) as [n|] eqn:E'; [|reflexivity].
      apply find_some in E'. destruct E' as [Hn Hs].
      apply sameLabel_spec in Hs. destruct (Hno n Hn) as [_ Hc]. now apply Hc in Hs.
  - intros parseSqlToSchema fixCommonSqlIssues r st sql isLiveUpdate p Hne Hparse.
    rewrite (apply_parsed parseSqlToSchema fixCommonSqlIssues r st sql p isLiveUpdate
               Hne Hparse).
    unfold handleUpdateSchema, andThen, when, skip.
    destruct (0 <? length (default [] (parsedEnumTypes p)))%nat;
      destruct (negb isLiveUpdate); reflexivity.
  - intros old newNode Hlabel Hpos Hnew Hid.
    exists (preserveNode [old] newNode). split; [reflexivity|].
    unfold preserveNode, nodeToPreserve. simpl.
    assert (Hs : sameId newNode old = false).
    { apply not_true_is_false. rewrite sameId_spec. congruence. }
    assert (Hl : sameLabel newNode old = true).
    { apply sameLabel_spec. rewrite Hlabel, Hnew. split; [discriminate | reflexivity]. }
    now rewrite Hs, Hl, Hpos.
Qed.

(* ================================================================== *)
(** ** Renders and their effects *)
(* ================================================================== *)

Lemma truthy_trim (s : string) : Js.truthy (Js.trim s) = true -> Js.truthy s = true.
Proof.
  destruct s as [|c s]; [discriminate | reflexivity].
Qed.

Lemma truthy_trim_blank (s : string) : Js.truthy (Js.trim s) = negb (isBlank s).
Proof.
  destruct (isBlank s) eqn:Hb; simpl.
  - now rewrite (trim_blank s Hb).
  - destruct (Js.trim s) eqn:Ht; [|reflexivity].
    apply trim_empty_iff in Ht. congruence.
Qed.

Section Effects.

Variable generateSql :
  string -> list SchemaNode -> list Edge -> list EnumType -> Settings -> string.
Variable parseSqlToSchema : string -> ParseOutcome.
Variable fixCommonSqlIssues : string -> string.

Local Abbreviation applySql :=
  (handleApplySqlChangesInternal parseSqlToSchema fixCommonSqlIssues).
Local Abbreviation effects :=
  (runEffects generateSql parseSqlToSchema fixCommonSqlIssues).
Local Abbreviation act :=
  (dispatch generateSql parseSqlToSchema fixCommonSqlIssues).
Local Abbreviation actAll :=
  (dispatchAll generateSql parseSqlToSchema fixCommonSqlIssues).

(** No effect runs when none of the dependencies changed, and none
    does anything when only the live dependencies changed outside the
    editing state. *)
Lemma effects_settled (prev cur : EditorState) :
  dbType prev = dbType cur ->
  settings prev = settings cur ->
  (isEditing cur = false \/
   (editableSql prev = editableSql cur /\ liveEditMode prev = liveEditMode cur /\
    isEditing prev = isEditing cur)) ->
  effects prev cur = cur.
Proof.
  intros Hdb Hset Hlive.
  unfold runEffects, dbTypeChanged, settingsChanged, liveDepsChanged, andThen, when.
  rewrite Hdb, Hset, String.eqb_refl, !Bool.eqb_reflx. simpl.
  destruct Hlive as [Hclean | (He & Hl & Hi)].
  - unfold liveUpdateEffect. rewrite Hclean. simpl.
    now split_if.
  - now rewrite He, Hl, Hi, String.eqb_refl, !Bool.eqb_reflx.
Qed.

(** What the apply handler never writes, and what it leaves alone as
    a live update. *)
Lemma apply_frame (r st : EditorState) (sql : string) (isLiveUpdate : bool) :
  let st' := applySql r sql isLiveUpdate st in
  dbType st' = dbType st /\
  storedSettings (store st') = storedSettings (store st) /\
  editableSql st' = editableSql st /\
  liveEditMode st' = liveEditMode st /\
  sqlContent st' = sqlContent st /\
  (isLiveUpdate = true -> isEditing st' = isEditing st /\ toasts st' = toasts st).
Proof.
  unfold handleApplySqlChangesInternal, handleUpdateSchema, andThen, when.
  destruct (Js.truthy (Js.trim sql)); simpl; [|repeat split].
  destruct (parseSqlToSchema _) as [p| |m]; simpl; [|repeat split..].
  destruct (0 <? length _)%nat, isLiveUpdate; simpl; repeat split; discriminate.
Qed.



Lemma act_cancel (st : EditorState) :
  act ClickCancel st = cancelEdit st st.
Proof.
  unfold dispatch. simpl.
  assert (H1 : effects st (cancelEdit st st) = cancelEdit st st).
  { apply effects_settled; auto. }
  rewrite H1. apply effects_settled; auto.
Qed.



(** After the first render of a component that is not editing, the
    editor is clean: the displayed DDL, the applied SQL, the editable
    text and the stored code are the DDL generated from the graph. *)
Lemma mount_clean (r : EditorState) :
  isEditing r = false ->
  let st := mount generateSql parseSqlToSchema fixCommonSqlIssues r in
  let ddl := generated generateSql r in
  sqlContent st = ddl /\ appliedSql st = ddl /\ editableSql st = ddl /\
  code (store st) = ddl /\ generated generateSql st = ddl /\
  isEditing st = false /\ nodes (store st) = nodes (store r).
Proof.
  intros Hclean st ddl. subst st ddl. unfold mount.
  set (st := (mountEffect generateSql r ;; dbTypeEffect generateSql r ;;
              settingsEffect generateSql r ;;
              liveUpdateEffect parseSqlToSchema fixCommonSqlIssues r ;;
              forceRegenerateEffect generateSql r)%update r).
  assert (Hst : sqlContent st = generated generateSql r /\
                appliedSql st = generated generateSql r /\
                editableSql st = generated generateSql r /\
                code (store st) = generated generateSql r /\
                isEditing st = false /\ dbType st = dbType r /\
                settings st = settings r /\
                nodes (store st) = nodes (store r) /\
                edges (store st) = edges (store r) /\
                enumTypes (store st) = enumTypes (store r)).
  { subst st.
    unfold mountEffect, dbTypeEffect, settingsEffect, liveUpdateEffect,
      forceRegenerateEffect, andThen, when, skip, settings.
    rewrite Hclean. simpl.
    destruct (storedSettings (store r)) eqn:Hs, (Js.truthy (appliedSql r));
      simpl; rewrite ?Hs; repeat split; assumption. }
  destruct Hst as (Hc & Ha & He & Hcode & Hi & Hd & Hset & Hn & Hed & Hen).
  rewrite effects_settled; auto.
  repeat split; try assumption.
  unfold generated. now rewrite Hd, Hn, Hed, Hen, Hset.
Qed.

(** The render that follows a changed setting: the settings effect
    and the forced regeneration run, both on the new render. *)
Lemma effects_after_setting (prev cur : EditorState) :
  dbTypeChanged prev cur || settingsChanged prev cur = true ->
  editableSql prev = editableSql cur ->
  liveEditMode prev = liveEditMode cur ->
  isEditing prev = isEditing cur ->
  let newSql := generated generateSql cur in
  let st' := effects prev cur in
  nodes (store st') = nodes (store cur) /\
  edges (store st') = edges (store cur) /\
  enumTypes (store st') = enumTypes (store cur) /\
  storedSettings (store st') = storedSettings (store cur) /\
  dbType st' = dbType cur /\
  isEditing st' = isEditing cur /\
  liveEditMode st' = liveEditMode cur /\
  error st' = error cur /\
  toasts st' = toasts cur /\
  sqlContent st' = newSql /\
  appliedSql st' = newSql /\
  code (store st') = newSql /\
  editableSql st' = (if isEditing cur then editableSql cur else newSql).
Proof.
  intros Hchanged He Hl Hi.
  unfold runEffects, liveDepsChanged, andThen, when.
  rewrite Hchanged, He, Hl, Hi, String.eqb_refl, !Bool.eqb_reflx. simpl.
  unfold dbTypeEffect, settingsEffect, forceRegenerateEffect, andThen, when.
  destruct (dbTypeChanged prev cur), (settingsChanged prev cur),
    (isEditing cur) eqn:Hedit; unfold skip; simpl; rewrite ?Hedit;
    try discriminate Hchanged; repeat split; assumption.
Qed.

(** C5. A change of a setting that bears on the DDL (either toggle, or
    another dialect) never touches the graph, the editing state or the
    error.  The displayed DDL, the applied SQL that Cancel rolls back
    to and the stored code are regenerated from the graph at once,
    whether the user is editing or not.  While editing, the editable
    text is kept and the two toggles tell the user that the edits are
    preserved until applied; while clean the editable text is
    regenerated too. *)
Theorem C5_setting_change_keeps_only_the_editable_text
    (st : EditorState) (ev : Event) :
  changesSetting ev st = true ->
  let st' := act ev st in
  let newSql := generated generateSql st' in
  (nodes (store st') = nodes (store st) /\
   edges (store st') = edges (store st) /\
   enumTypes (store st') = enumTypes (store st) /\
   isEditing st' = isEditing st /\
   liveEditMode st' = liveEditMode st /\
   error st' = error st) /\
  (sqlContent st' = newSql /\ appliedSql st' = newSql /\ code (store st') = newSql) /\
  (isEditing st = true ->
     editableSql st' = editableSql st /\
     toasts st' = (toasts st ++ if isToggle ev then [applyNowToast] else [])%list) /\
  (isEditing st = false ->
     editableSql st' = newSql /\ toasts st' = toasts st).
Proof.
  intros Hev st'.
  set (st1 := handle parseSqlToSchema fixCommonSqlIssues ev st st).
  set (st2 := effects st st1).
  assert (Hst' : st' = effects st1 st2) by reflexivity.
  assert (H1 : nodes (store st1) = nodes (store st) /\
               edges (store st1) = edges (store st) /\
               enumTypes (store st1) = enumTypes (store st) /\
               isEditing st1 = isEditing st /\
               liveEditMode st1 = liveEditMode st /\
               error st1 = error st /\
               editableSql st1 = editableSql st /\
               toasts st1 =
                 (toasts st ++ if isEditing st && isToggle ev then [applyNowToast] else [])%list /\
               dbTypeChanged st st1 || settingsChanged st st1 = true).
  { subst st1. unfold dbTypeChanged, settingsChanged, settings.
    destruct ev; try discriminate Hev; simpl in *;
      unfold handleToggleCaseSensitive, handleToggleInlineConstraints,
        settings, andThen, when, skip;
      destruct (isEditing st) eqn:Hedit; simpl; rewrite ?app_nil_r;
      repeat split; try assumption;
      try (rewrite Hev; reflexivity);
      destruct (default defaultSettings (storedSettings (store st))) as [[] []];
      simpl; rewrite ?orb_true_r; reflexivity. }
  destruct H1 as (Hn1 & He1 & Ht1 & Hi1 & Hl1 & Herr1 & Hed1 & Hto1 & Hch).
  destruct (effects_after_setting st st1 Hch) as
    (Hn2 & He2 & Ht2 & Hs2 & Hd2 & Hi2 & Hl2 & Herr2 & Hto2 & Hsql2 & Happ2 & Hcode2 & Hed2);
    try (symmetry; assumption).
  fold st2 in Hn2, He2, Ht2, Hs2, Hd2, Hi2, Hl2, Herr2, Hto2, Hsql2, Happ2, Hcode2, Hed2.
  assert (Hsettled : st' = st2).
  { rewrite Hst'. apply effects_settled.
    - now rewrite Hd2.
    - unfold settings. now rewrite Hs2.
    - destruct (isEditing st1) eqn:Hedit.
      + right. repeat split; congruence.
      + left. congruence. }
  assert (Hgen : generated generateSql st2 = generated generateSql st1).
  { unfold generated, settings. now rewrite Hd2, Hn2, He2, Ht2, Hs2. }
  intros newSql. subst newSql. rewrite Hsettled, Hgen.
  repeat apply conj; try congruence.
  - intros Hedit. rewrite Hed2, Hto2, Hto1, Hi1, Hedit. simpl. split; congruence.
  - intros Hedit. rewrite Hed2, Hto2, Hto1, Hi1, Hedit. simpl.
    split; [reflexivity | apply app_nil_r].
Qed.

(** In live editing a change of the text to one that is not empty
    makes the live effect call the apply handler on the new text, as a
    live update, and nothing else runs. *)
Lemma act_type_live (st : EditorState) (text : string) :
  isEditing st = true -> liveEditMode st = true ->
  text <> editableSql st -> Js.truthy text = true ->
  act (TypeSql text) st =
    applySql (setEditableSql text st) text true (setEditableSql text st).
Proof.
  intros Hedit Hlive Hchange Htext. unfold dispatch. simpl.
  set (st1 := setEditableSql text st).
  assert (H1 : effects st st1 = applySql st1 text true st1).
  { unfold runEffects, dbTypeChanged, settingsChanged, liveDepsChanged,
      liveUpdateEffect, andThen, when. simpl.
    rewrite Hedit, Hlive, Htext, String.eqb_refl, !Bool.eqb_reflx. simpl.
    assert (Hneq : (editableSql st =? text)%string = false).
    { apply String.eqb_neq. congruence. }
    now rewrite Hneq. }
  rewrite H1.
  destruct (apply_frame st1 st1 text true) as (Hd & Hs & He & Hl & _ & Hi).
  destruct (Hi eq_refl) as [Hi' _].
  apply effects_settled.
  - now rewrite Hd.
  - unfold settings. now rewrite Hs.
  - right. now rewrite He, Hl, Hi'.
Qed.

(** When the buffer is emptied the live effect does nothing. *)
Lemma act_type_live_empty (st : EditorState) :
  act (TypeSql "") st = setEditableSql "" st.
Proof.
  unfold dispatch. simpl.
  assert (H1 : effects st (setEditableSql "" st) = setEditableSql "" st).
  { unfold runEffects, dbTypeChanged, settingsChanged, liveDepsChanged,
      liveUpdateEffect, andThen, when. simpl.
    rewrite String.eqb_refl, !Bool.eqb_reflx, !andb_false_r. simpl.
    now split_if. }
  rewrite H1. apply effects_settled; auto.
Qed.

(** The user action Apply on a text the parser rejects: the handler
    writes the error and no effect runs. *)
Lemma act_apply_throws (st : EditorState) (message : string) :
  Js.truthy (Js.trim (editableSql st)) = true ->
  parseSqlToSchema (repair fixCommonSqlIssues (editableSql st)) = ParseThrows message ->
  act ClickApply st = setError (Some ("Failed to parse SQL: " ++ message)) st.
Proof.
  intros Hne Hparse. unfold dispatch. simpl. unfold handleApplySqlChanges.
  rewrite (apply_throws parseSqlToSchema fixCommonSqlIssues st st _ message false Hne Hparse).
  rewrite (effects_settled st); auto.
  apply effects_settled; auto.
Qed.

(** C2. In live editing every change of the editable text leaves the
    editor in live editing with the typed text in the buffer, and the
    text handed to the parser is the text as typed: the repairs are left
    to Apply.  For a text that is not blank the parse, the reconciliation
    and the commit run: when the parse succeeds the merged nodes and the
    edges are committed and the typed text becomes the applied SQL; when
    it fails the error is shown and the graph, the applied SQL and the
    text buffer are left alone.  A blank text commits nothing. *)
Theorem C2_live_update_parses_the_text_as_typed (st : EditorState) (text : string) :
  isEditing st = true -> liveEditMode st = true ->
  text <> editableSql st ->
  let st' := act (TypeSql text) st in
  processed fixCommonSqlIssues true text = text /\
  (isEditing st' = true /\ liveEditMode st' = true /\
   editableSql st' = text /\ sqlContent st' = sqlContent st) /\
  (isBlank text = false ->
     (forall p, parseSqlToSchema text = Parsed p ->
        nodes (store st') = preservedNodes (nodes (store st)) (parsedNodes p) /\
        edges (store st') = parsedEdges p /\
        appliedSql st' = text /\ code (store st') = text /\ error st' = None) /\
     (forall m, parseSqlToSchema text = ParseThrows m ->
        store st' = store st /\ appliedSql st' = appliedSql st /\
        editableSql st' = text /\
        error st' = Some ("Failed to parse SQL: " ++ m))) /\
  (isBlank text = true ->
     store st' = store st /\ appliedSql st' = appliedSql st /\
     (text <> "" -> error st' = Some "SQL cannot be empty")).
Proof.
  intros Hedit Hlive Hchange st'.
  split; [reflexivity|].
  destruct (Js.truthy text) eqn:Htext.
  - assert (Hst' : st' = applySql (setEditableSql text st) text true (setEditableSql text st)).
    { now apply act_type_live. }
    destruct (apply_frame (setEditableSql text st) (setEditableSql text st) text true)
      as (_ & _ & He & Hl & Hc & Hi).
    destruct (Hi eq_refl) as [Hi' _].
    rewrite <- Hst' in He, Hl, Hc, Hi'. simpl in He, Hl, Hc, Hi'.
    split; [repeat apply conj; congruence|].
    split.
    + intros Hblank.
      assert (Hne : Js.truthy (Js.trim text) = true).
      { rewrite truthy_trim_blank, Hblank. reflexivity. }
      split.
      * intros p Hp. rewrite Hst'.
        rewrite (apply_parsed parseSqlToSchema fixCommonSqlIssues _ _ text p true Hne Hp).
        unfold handleUpdateSchema, andThen, when. simpl.
        now destruct (0 <? length _)%nat.
      * intros m Hm. rewrite Hst'.
        rewrite (apply_throws parseSqlToSchema fixCommonSqlIssues _ _ text m true Hne Hm).
        repeat split.
    + intros Hblank. rewrite Hst'.
      rewrite (apply_blank parseSqlToSchema fixCommonSqlIssues _ _ text true Hblank).
      repeat split.
  - destruct text; [|discriminate Htext].
    assert (Hst' : st' = setEditableSql "" st) by apply act_type_live_empty.
    rewrite Hst'. simpl.
    split; [repeat apply conj; congruence|].
    split; [discriminate|].
    intros _. repeat split. intros Hne. now contradiction Hne.
Qed.

End Effects.

(* ================================================================== *)
(** ** The column rename *)
(* ================================================================== *)

Lemma NoDup_insert_fresh {A : Type} (l : list A) (i : nat) (x y : A) :
  l !! i = Some y -> NoDup l -> x ∉ delete i l -> NoDup (<[i:=x]> l).
Proof.
  intros Hy Hl Hx.
  assert (Hi : (i < length l)%nat) by (eapply lookup_lt_Some; eauto).
  rewrite insert_take_drop by assumption.
  rewrite delete_take_drop in Hx.
  rewrite <- (take_drop_middle l i y Hy) in Hl.
  apply NoDup_app in Hl as (H1 & H2 & H3).
  apply NoDup_cons in H3 as (H3 & H4).
  apply NoDup_app. repeat split; try assumption.
  - intros z Hz Hz'. apply elem_of_cons in Hz' as [->|Hz'].
    + apply Hx. apply elem_of_app. now left.
    + apply (H2 z Hz). now right.
  - apply NoDup_cons. split; [|assumption].
    intros Hin. apply Hx. apply elem_of_app. now right.
Qed.

Lemma titles_insert (columns : list Column) (index : nat) (value : string)
    (column : Column) :
  Sidebar.titles (<[index := Sidebar.setField Sidebar.FieldTitle value column]> columns) =
  <[index := value]> (Sidebar.titles columns).
Proof.
  revert index. induction columns as [|c columns IH]; intros [|index]; simpl;
    try reflexivity.
  f_equal. apply IH.
Qed.

Lemma titles_lookup (columns : list Column) (index : nat) (column : Column) :
  columns !! index = Some column ->
  Sidebar.titles columns !! index = Some (title column).
Proof.
  revert index. induction columns as [|c columns IH]; intros [|index]; simpl;
    try discriminate.
  - now intros [= ->].
  - apply IH.
Qed.

(** The titles stay distinct whenever the value that is written, the
    typed title or the suffixed one, is not the title of another column. *)
Lemma updateColumn_distinct (node : SchemaNode) (index : nat) (value : string)
    (column : Column) :
  schema (data node) !! index = Some column ->
  NoDup (Sidebar.titles (schema (data node))) ->
  Sidebar.uniqueValue (schema (data node)) index Sidebar.FieldTitle value
    ∉ delete index (Sidebar.titles (schema (data node))) ->
  exists newSchema,
    Sidebar.updateColumn (Some node) index Sidebar.FieldTitle value =
      Sidebar.SentSchema newSchema /\
    NoDup (Sidebar.titles newSchema).
Proof.
  intros Hcol Hdistinct Hfresh. unfold Sidebar.updateColumn. rewrite Hcol.
  eexists. split; [reflexivity|].
  rewrite titles_insert.
  eapply NoDup_insert_fresh; eauto using titles_lookup.
Qed.

(** A title that no other column holds is written as typed. *)
Lemma uniqueValue_fresh (columns : list Column) (index : nat) (value : string) :
  value ∉ delete index (Sidebar.titles columns) ->
  Sidebar.uniqueValue columns index Sidebar.FieldTitle value = value.
Proof.
  intros Hfresh. unfold Sidebar.uniqueValue.
  now rewrite bool_decide_eq_false_2.
Qed.

(* ================================================================== *)
(** ** The quoting pass on sample statements *)
(* ================================================================== *)

Example quotes_two_word_table :
  Repair.ensureTableNamesAreQuoted "CREATE TABLE order items (id uuid);" =
  "CREATE TABLE " ++ Repair.quoted "order items" ++ " (id uuid);".
Proof. vm_compute. reflexivity. Qed.

Example quotes_two_word_reference :
  Repair.ensureTableNamesAreQuoted "REFERENCES order items(id)" =
  "REFERENCES " ++ Repair.quoted "order items" ++ " (id)".
Proof. vm_compute. reflexivity. Qed.

Example keeps_one_word_table :
  Repair.ensureTableNamesAreQuoted "CREATE TABLE orders (id uuid REFERENCES users (id));" =
  "CREATE TABLE orders (id uuid REFERENCES users (id));".
Proof. vm_compute. reflexivity. Qed.

Example keeps_quoted_table :
  let sql := "ALTER TABLE " ++ Repair.quoted "orders" ++ " ADD CONSTRAINT fk1" in
  Repair.ensureTableNamesAreQuoted sql = sql.
Proof. vm_compute. reflexivity. Qed.

(* ================================================================== *)
(** ** The repairs and the column rename on concrete inputs *)
(* ================================================================== *)

(** C3. On a foreign-key section, the header comment followed by two
    identical [ALTER TABLE ... ADD CONSTRAINT] lines, the pass returns
    the text as it came, both lines included: the split makes the header
    a section of its own, and the lines after it lie in a section that
    does not hold the marker. *)
Theorem C3_duplicates_under_the_header_survive :
  Regex.split Repair.commentRegex Sample.foreignKeySection =
    [""; "-- Foreign Key Constraints";
     Js.LF ++ Sample.foreignKey ++ Js.LF ++ Sample.foreignKey] /\
  Repair.removeDuplicateAlterTableStatements Sample.foreignKeySection =
    "-- Foreign Key Constraints" ++ Js.LF ++ Sample.foreignKey ++ Js.LF ++ Sample.foreignKey.
Proof. split; vm_compute; reflexivity. Qed.

(** C8. The first repair pass rewrites an [ALTER TABLE] statement on a
    table with a one-word name: the name and the keyword after it are
    taken for a two-word identifier and quoted together. *)
Theorem C8_one_word_table_gets_quoted_with_the_keyword :
  Repair.ensureTableNamesAreQuoted Sample.foreignKey =
    "ALTER TABLE " ++ Repair.quoted "orders ADD" ++
    " CONSTRAINT fk1 FOREIGN KEY (id) REFERENCES users(id);" /\
  Repair.ensureTableNamesAreQuoted Sample.foreignKey <> Sample.foreignKey.
Proof.
  split; [vm_compute; reflexivity|].
  apply String.eqb_neq. vm_compute. reflexivity.
Qed.

(** C9. Renaming the second column of a table with the distinct titles
    [name], [email], [name_1] to [name] writes [name_1], the title of the
    third column: the titles are no longer distinct. *)
Theorem C9_suffixed_title_can_collide :
  NoDup (Sidebar.titles (schema (data Sample.accounts))) /\
  Sidebar.updateColumn (Some Sample.accounts) 1 Sidebar.FieldTitle "name" =
    Sidebar.SentSchema
      [Sample.column "name"; Sample.column "name_1"; Sample.column "name_1"] /\
  ~ NoDup (Sidebar.titles
             [Sample.column "name"; Sample.column "name_1"; Sample.column "name_1"]).
Proof.
  repeat apply conj.
  - compute_done.
  - vm_compute. reflexivity.
  - compute_done.
Qed.

(* ================================================================== *)
(** ** The component on concrete runs *)
(* ================================================================== *)

(** The sample clean state is what a first render leaves. *)
Example clean_is_mounted :
  mount Sample.generateSql Sample.acceptAll Sample.fixNothing Sample.clean = Sample.clean.
Proof. vm_compute. reflexivity. Qed.

(** A rejected apply of the text [CREATE TABLE Accounts ();] while
    editing: only the error is written. *)
Lemma C1_witness :
  let st' := handleApplySqlChangesInternal Sample.rejectAll Sample.fixNothing
               Sample.editing "CREATE TABLE Accounts ();" false Sample.editing in
  store st' = store Sample.editing /\
  sqlContent st' = sqlContent Sample.editing /\
  appliedSql st' = appliedSql Sample.editing /\
  editableSql st' = editableSql Sample.editing /\
  isEditing st' = isEditing Sample.editing /\
  liveEditMode st' = liveEditMode Sample.editing /\
  dbType st' = dbType Sample.editing /\
  toasts st' = toasts Sample.editing /\
  error st' = Some ("Failed to parse SQL: " ++ "unexpected token").
Proof.
  apply (C1_failed_parse_commits_nothing Sample.rejectAll Sample.fixNothing
           Sample.editing Sample.editing "CREATE TABLE Accounts ();"
           "unexpected token" false); reflexivity.
Defined.

(** An apply of three spaces. *)
Lemma C10_witness :
  let st' := handleApplySqlChangesInternal Sample.acceptAll Sample.fixNothing
               Sample.editing "   " false Sample.editing in
  error st' = Some "SQL cannot be empty" /\
  store st' = store Sample.editing /\
  sqlContent st' = sqlContent Sample.editing /\
  appliedSql st' = appliedSql Sample.editing /\
  editableSql st' = editableSql Sample.editing /\
  isEditing st' = isEditing Sample.editing /\
  liveEditMode st' = liveEditMode Sample.editing /\
  dbType st' = dbType Sample.editing /\
  toasts st' = toasts Sample.editing.
Proof.
  apply (C10_blank_sql_is_rejected Sample.acceptAll Sample.fixNothing
           Sample.editing Sample.editing "   " false); reflexivity.
Defined.

(** [Users] at (10,20) and the parsed [users]: the merged table stands
    at (10,20) and has the parsed columns. *)
Lemma C4_witness :
  exists m,
    preservedNodes [Sample.users] [Sample.parsedUsers] !! 0%nat = Some m /\
    position m = Some {| x := 10; y := 20 |} /\
    schema (data m) = schema (data Sample.parsedUsers).
Proof.
  pose proof (C4_reconcile_keeps_layout_only [Sample.users] [Sample.parsedUsers]) as H.
  cbv zeta in H. destruct H as (_ & Hnodes & _).
  destruct (Hnodes 0%nat Sample.parsedUsers eq_refl)
    as (m & Hm & (_ & _ & _ & Hschema) & _ & _ & Hlayout & _).
  exists m. split; [exact Hm|]. split; [|exact Hschema].
  assert (Hmatch : matchedWith [Sample.users] Sample.parsedUsers Sample.users).
  { right. split; [|split].
    - intros n [<-|[]]. discriminate.
    - discriminate.
    - exists [], []. split; [reflexivity|]. split; [reflexivity|]. intros n []. }
  destruct (Hlayout Sample.users {| x := 10; y := 20 |} Hmatch eq_refl) as (Hp & _).
  exact Hp.
Defined.

(** A table matched by its id with an old table that has a style and a
    colour override but no position: the parsed table is committed as
    it is, and neither the style nor the colour of the old table is put
    on it. *)
Lemma C4_counterexample :
  let merged := preservedNodes [Sample.unplaced] [Sample.reparsed] in
  id Sample.unplaced = id Sample.reparsed /\
  position Sample.unplaced = None /\
  style Sample.unplaced = Some [("width", "320px")] /\
  color (data Sample.unplaced) = Some "#ff0000" /\
  merged = [Sample.reparsed] /\
  List.map style merged = [None] /\
  List.map (fun n => color (data n)) merged = [None].
Proof. repeat apply conj; reflexivity. Qed.

(** Typing a statement in live editing: the typed text is parsed and
    committed as it is. *)
Lemma C2_witness :
  let st' := dispatch Sample.generateSql Sample.acceptAll Sample.fixNothing
               (TypeSql "CREATE TABLE Orders ();") Sample.liveEditing in
  isEditing st' = true /\ liveEditMode st' = true /\
  editableSql st' = "CREATE TABLE Orders ();" /\
  appliedSql st' = "CREATE TABLE Orders ();".
Proof.
  destruct (C2_live_update_parses_the_text_as_typed
              Sample.generateSql Sample.acceptAll Sample.fixNothing
              Sample.liveEditing "CREATE TABLE Orders ();")
    as (_ & (Hi & Hl & He & _) & Hrun & _);
    [reflexivity | reflexivity | discriminate |].
  destruct (Hrun eq_refl) as (Hparsed & _).
  destruct (Hparsed Sample.emptyGraph eq_refl) as (_ & _ & Ha & _).
  repeat split; assumption.
Defined.

(** The live step hands the typed text to the parser, the step of the
    specification the repaired one: on a statement that names a table by
    two bare words the two end with different applied SQL. *)
Lemma C2_counterexample :
  let text := "ALTER TABLE order items ADD x int;" in
  let live := dispatch Sample.generateSql Sample.acceptAll Sample.fixNothing
                (TypeSql text) Sample.liveEditing in
  let specified := liveUpdateAsSpecified Sample.acceptAll Sample.fixNothing
                     Sample.liveEditing text in
  appliedSql live = text /\
  appliedSql specified = "ALTER TABLE " ++ Repair.quoted "order items" ++ " ADD x int;" /\
  live <> specified.
Proof.
  repeat apply conj.
  - vm_compute. reflexivity.
  - vm_compute. reflexivity.
  - intros H. apply (f_equal appliedSql) in H. vm_compute in H. discriminate H.
Qed.

(** Toggling the quoting while editing. *)
Lemma C5_witness :
  let st' := dispatch Sample.generateSql Sample.acceptAll Sample.fixNothing
               ToggleCaseSensitive Sample.editing in
  editableSql st' = editableSql Sample.editing /\
  toasts st' = [applyNowToast] /\
  appliedSql st' = generated Sample.generateSql st'.
Proof.
  destruct (C5_setting_change_keeps_only_the_editable_text
              Sample.generateSql Sample.acceptAll Sample.fixNothing
              Sample.editing ToggleCaseSensitive eq_refl)
    as (_ & (_ & Ha & _) & Hediting & _).
  destruct (Hediting eq_refl) as (He & Ht).
  repeat split; assumption.
Defined.

(** While the user edits, toggling the quoting regenerates the displayed
    DDL and the applied SQL at once. *)
Lemma C5_counterexample :
  let st' := dispatch Sample.generateSql Sample.acceptAll Sample.fixNothing
               ToggleCaseSensitive Sample.editing in
  isEditing Sample.editing = true /\
  sqlContent Sample.editing = "CREATE TABLE Users ();" /\
  appliedSql Sample.editing = "CREATE TABLE Users ();" /\
  sqlContent st' = "CREATE TABLE " ++ Repair.quoted "Users" ++ " ();" /\
  appliedSql st' = "CREATE TABLE " ++ Repair.quoted "Users" ++ " ();" /\
  sqlContent st' <> sqlContent Sample.editing /\
  appliedSql st' <> appliedSql Sample.editing.
Proof.
  repeat apply conj; try (vm_compute; reflexivity);
    apply String.eqb_neq; vm_compute; reflexivity.
Qed.



(* ================================================================== *)
(** ** Running the repairs twice *)
(* ================================================================== *)

(** The quoting pass leaves the sample section alone, the first run of
    the de-duplication drops the third statement, and that brings the
    comment opener of the second line next to the comment that followed
    the third. *)
Lemma dedup_once :
  Repair.ensureTableNamesAreQuoted Sample.commentedSection = Sample.commentedSection /\
  Repair.removeDuplicateAlterTableStatements Sample.commentedSection =
    "/* Foreign Key Constraints */" ++ Js.LF ++
    Sample.quotedForeignKey ++ Js.LF ++
    Sample.quotedForeignKey ++ " -- -- x".
Proof. split; vm_compute; reflexivity. Qed.

(** A second run splits the text before that opener, finds the second
    statement equal to the first and drops it: the de-duplication pass is
    not idempotent by itself. *)
Lemma dedup_twice :
  let once := Repair.removeDuplicateAlterTableStatements Sample.commentedSection in
  Repair.ensureTableNamesAreQuoted once = once /\
  Repair.removeDuplicateAlterTableStatements once =
    "/* Foreign Key Constraints */" ++ Js.LF ++ Sample.quotedForeignKey ++ "-- -- x" /\
  Repair.removeDuplicateAlterTableStatements once <> once.
Proof.
  repeat apply conj; try (vm_compute; reflexivity).
  apply String.eqb_neq. vm_compute. reflexivity.
Qed.

(** Whether the whole pipeline is idempotent hangs on the syntax fixer:
    with any fixer that leaves the sample section and its de-duplicated
    form as they are, two runs of the pipeline differ from one. *)
Lemma repair_twice_differs (fixCommonSqlIssues : string -> string) :
  let once := Repair.removeDuplicateAlterTableStatements Sample.commentedSection in
  fixCommonSqlIssues Sample.commentedSection = Sample.commentedSection ->
  fixCommonSqlIssues once = once ->
  repair fixCommonSqlIssues (repair fixCommonSqlIssues Sample.commentedSection) <>
  repair fixCommonSqlIssues Sample.commentedSection.
Proof.
  intros once Hfix Hfix'. subst once. unfold repair.
  destruct dedup_once as [Hq _].
  pose proof dedup_twice as Htwice. cbv zeta in Htwice.
  destruct Htwice as (Hq' & _ & Hne).
  rewrite Hq, Hfix, Hq', Hfix'. exact Hne.
Qed.

(* ================================================================== *)
(** ** The rounds of effects after a user action *)
(* ================================================================== *)

Section Rounds.

Variable generateSql :
  string -> list SchemaNode -> list Edge -> list EnumType -> Settings -> string.
Variable parseSqlToSchema : string -> ParseOutcome.
Variable fixCommonSqlIssues : string -> string.

Local Abbreviation applySql :=
  (handleApplySqlChangesInternal parseSqlToSchema fixCommonSqlIssues).
Local Abbreviation effects :=
  (runEffects generateSql parseSqlToSchema fixCommonSqlIssues).
Local Abbreviation act :=
  (dispatch generateSql parseSqlToSchema fixCommonSqlIssues).

Lemma keepsDeps_skip (r : EditorState) : keepsDeps r skip.
Proof. intros s. repeat split. Qed.

Lemma keepsDeps_andThen (r : EditorState) (u1 u2 : Update) :
  keepsDeps r u1 -> keepsDeps r u2 -> keepsDeps r (u1 ;; u2).
Proof.
  intros H1 H2 s. unfold andThen.
  destruct (H1 s) as (a1 & b1 & c1 & d1 & e1).
  destruct (H2 (u1 s)) as (a2 & b2 & c2 & d2 & e2).
  repeat split; try congruence.
  intros Hr. rewrite (e2 Hr). auto.
Qed.

Lemma keepsDeps_when (r : EditorState) (b : bool) (u : Update) :
  keepsDeps r u -> keepsDeps r (when b u).
Proof. destruct b; [auto | intros _; apply keepsDeps_skip]. Qed.

Lemma keepsDeps_dbTypeEffect (r : EditorState) : keepsDeps r (dbTypeEffect generateSql r).
Proof.
  intros s. unfold dbTypeEffect, andThen, when, skip.
  destruct (isEditing r); simpl; repeat split; discriminate.
Qed.

Lemma keepsDeps_settingsEffect (r : EditorState) : keepsDeps r (settingsEffect generateSql r).
Proof.
  intros s. unfold settingsEffect, andThen, skip.
  destruct (isEditing r); simpl; repeat split; discriminate.
Qed.

Lemma keepsDeps_forceRegenerateEffect (r : EditorState) :
  keepsDeps r (forceRegenerateEffect generateSql r).
Proof.
  intros s. unfold forceRegenerateEffect, andThen, when, skip.
  destruct (isEditing r); simpl; repeat split; discriminate.
Qed.

Lemma keepsDeps_liveUpdateEffect (r : EditorState) :
  keepsDeps r (liveUpdateEffect parseSqlToSchema fixCommonSqlIssues r).
Proof.
  intros s. unfold liveUpdateEffect.
  destruct (isEditing r && liveEditMode r && Js.truthy (editableSql r));
    [|repeat split].
  destruct (apply_frame parseSqlToSchema fixCommonSqlIssues r s (editableSql r) true)
    as (Hd & Hs & He & Hl & _ & Hi).
  destruct (Hi eq_refl) as [Hi' _]. repeat split; auto.
Qed.

(** The effects of a render leave every dependency of the effects as
    the render had it, but for the editable text outside editing. *)
Lemma effects_keep_deps (prev cur : EditorState) :
  let st := effects prev cur in
  dbType st = dbType cur /\
  storedSettings (store st) = storedSettings (store cur) /\
  isEditing st = isEditing cur /\
  liveEditMode st = liveEditMode cur /\
  (isEditing cur = true -> editableSql st = editableSql cur).
Proof.
  unfold runEffects.
  apply (keepsDeps_andThen cur); [apply keepsDeps_when, keepsDeps_dbTypeEffect|].
  apply (keepsDeps_andThen cur); [apply keepsDeps_when, keepsDeps_settingsEffect|].
  apply (keepsDeps_andThen cur); [apply keepsDeps_when, keepsDeps_liveUpdateEffect|].
  apply keepsDeps_when, keepsDeps_forceRegenerateEffect.
Qed.

(** The effects write none of their own dependencies, so the render
    they cause runs no effect. *)
Lemma effects_idempotent (prev cur : EditorState) :
  effects cur (effects prev cur) = effects prev cur.
Proof.
  destruct (effects_keep_deps prev cur) as (Hd & Hs & Hi & Hl & He).
  apply effects_settled.
  - now rewrite Hd.
  - unfold settings. now rewrite Hs.
  - destruct (isEditing cur) eqn:Hedit.
    + right. rewrite (He eq_refl), Hl, Hi. auto.
    + left. congruence.
Qed.

Lemma act_one_round (ev : Event) (st : EditorState) :
  act ev st = effects st (handle parseSqlToSchema fixCommonSqlIssues ev st st).
Proof. unfold dispatch. apply effects_idempotent. Qed.

(** X1. Every user action settles in one round of effects: the second
    round that [dispatch] runs changes nothing, so a run of actions is
    the run of their handlers, each followed by the effects once. *)
Theorem events_settle_in_one_round (evs : list Event) (st : EditorState) :
  dispatchAll generateSql parseSqlToSchema fixCommonSqlIssues evs st =
  fold_left (fun s ev => effects s (handle parseSqlToSchema fixCommonSqlIssues ev s s))
            evs st.
Proof.
  unfold dispatchAll. revert st.
  induction evs as [|ev evs IH]; intros st; [reflexivity|].
  cbn [fold_left]. rewrite act_one_round. apply IH.
Qed.


(** The user action Apply settles in the state the handler leaves. *)
Lemma act_apply (st : EditorState) :
  act ClickApply st =
  applySql st (editableSql st) false st.
Proof.
  rewrite act_one_round. simpl. unfold handleApplySqlChanges.
  set (st1 := applySql st (editableSql st) false st).
  destruct (apply_frame parseSqlToSchema fixCommonSqlIssues st st (editableSql st) false)
    as (Hd & Hs & He & Hl & _ & _).
  fold st1 in Hd, Hs, He, Hl.
  assert (Hi : isEditing st1 = isEditing st \/ isEditing st1 = false).
  { subst st1. unfold handleApplySqlChangesInternal, handleUpdateSchema, andThen, when.
    destruct (Js.truthy (Js.trim (editableSql st))); simpl; [|now left].
    destruct (parseSqlToSchema _); simpl; auto. }
  apply effects_settled.
  - congruence.
  - unfold settings. congruence.
  - destruct Hi as [Hi|Hi]; [right | left]; auto.
Qed.

(** X3. Apply on a text that is not blank and that the parser accepts:
    the editor leaves the editing state with no error, the store holds
    the reconciled nodes, the parsed edges and the parsed enum types (the
    old ones when the parse has none), the repaired text becomes the
    rollback text and the typed text the stored code; the displayed DDL,
    the text buffer, the Live box and the settings stay, and one success
    toast is raised. *)
Theorem apply_commits (st : EditorState) (p : ParsedSchema) :
  isBlank (editableSql st) = false ->
  parseSqlToSchema (repair fixCommonSqlIssues (editableSql st)) = Parsed p ->
  let st' := act ClickApply st in
  isEditing st' = false /\
  error st' = None /\
  nodes (store st') = preservedNodes (nodes (store st)) (parsedNodes p) /\
  edges (store st') = parsedEdges p /\
  enumTypes (store st') =
    match parsedEnumTypes p with
    | Some (t :: ts) => t :: ts
    | _ => enumTypes (store st)
    end /\
  storedSettings (store st') = storedSettings (store st) /\
  appliedSql st' = repair fixCommonSqlIssues (editableSql st) /\
  code (store st') = editableSql st /\
  editableSql st' = editableSql st /\
  sqlContent st' = sqlContent st /\
  liveEditMode st' = liveEditMode st /\
  toasts st' = (toasts st ++ [ToastSuccess "SQL changes applied successfully"])%list.
Proof.
  intros Hblank Hp st'. subst st'. rewrite act_apply.
  assert (Hne : Js.truthy (Js.trim (editableSql st)) = true).
  { rewrite truthy_trim_blank, Hblank. reflexivity. }
  rewrite (apply_parsed parseSqlToSchema fixCommonSqlIssues st st _ p false Hne Hp).
  unfold handleUpdateSchema, andThen, when. simpl.
  destruct (parsedEnumTypes p) as [[|t ts]|]; simpl; repeat split.
Qed.

(** X4. From the editing state, Apply ends the editing exactly when the
    text is not blank and the parser returns a graph for the repaired
    text. *)
Theorem apply_leaves_editing_iff (st : EditorState) :
  isEditing st = true ->
  (isEditing (act ClickApply st) = false <->
   isBlank (editableSql st) = false /\
   exists p, parseSqlToSchema (repair fixCommonSqlIssues (editableSql st)) = Parsed p).
Proof.
  intros Hedit. rewrite act_apply.
  destruct (isBlank (editableSql st)) eqn:Hblank.
  - rewrite (apply_blank parseSqlToSchema fixCommonSqlIssues st st _ false Hblank). simpl.
    rewrite Hedit. split; [discriminate | intros [H _]; discriminate H].
  - assert (Hne : Js.truthy (Js.trim (editableSql st)) = true).
    { rewrite truthy_trim_blank, Hblank. reflexivity. }
    destruct (parseSqlToSchema (repair fixCommonSqlIssues (editableSql st)))
      as [p| |m] eqn:Hp.
    + rewrite (apply_parsed parseSqlToSchema fixCommonSqlIssues st st _ p false Hne Hp).
      unfold handleUpdateSchema, andThen, when. simpl.
      split; [intros _; split; [reflexivity | now exists p] | reflexivity].
    + unfold handleApplySqlChangesInternal, andThen, processed. simpl.
      rewrite Hne, Hp. simpl. rewrite Hedit.
      split; [discriminate | intros [_ [p Hp']]; discriminate Hp'].
    + rewrite (apply_throws parseSqlToSchema fixCommonSqlIssues st st _ m false Hne Hp).
      simpl. rewrite Hedit.
      split; [discriminate | intros [_ [p Hp']]; discriminate Hp'].
Qed.

(** X5. When the parser returns nothing for a text that is not blank,
    Apply clears the error and does nothing else: no commit, no toast,
    and the editor stays as it was. *)
Theorem apply_of_nothing_is_silent (st : EditorState) :
  isBlank (editableSql st) = false ->
  parseSqlToSchema (repair fixCommonSqlIssues (editableSql st)) = ParsedNothing ->
  act ClickApply st = setError None st.
Proof.
  intros Hblank Hp. rewrite act_apply.
  unfold handleApplySqlChangesInternal, andThen, processed. simpl.
  rewrite truthy_trim_blank, Hblank, Hp. reflexivity.
Qed.


(** The live update leaves the graph or commits the parse of the text of
    its render. *)
Lemma liveUpdateEffect_graph (r s : EditorState) :
  let s' := liveUpdateEffect parseSqlToSchema fixCommonSqlIssues r s in
  graphOf s' = graphOf s \/
  (isEditing r = true /\
   exists p, parseSqlToSchema (editableSql r) = Parsed p /\
     nodes (store s') = preservedNodes (nodes (store r)) (parsedNodes p) /\
     edges (store s') = parsedEdges p).
Proof.
  unfold liveUpdateEffect.
  destruct (isEditing r) eqn:Hedit; simpl; [|now left].
  destruct (liveEditMode r && Js.truthy (editableSql r)); [|now left].
  unfold handleApplySqlChangesInternal, andThen, processed. simpl.
  destruct (Js.truthy (Js.trim (editableSql r))); simpl; [|now left].
  destruct (parseSqlToSchema (editableSql r)) as [p| |m] eqn:Hp; [|now left..].
  right. split; [reflexivity|]. exists p. split; [reflexivity|].
  unfold handleUpdateSchema, andThen, when, skip. simpl.
  now destruct (0 <? length _)%nat.
Qed.

Lemma regeneration_graph (r s : EditorState) :
  graphOf (dbTypeEffect generateSql r s) = graphOf s /\
  graphOf (settingsEffect generateSql r s) = graphOf s /\
  graphOf (forceRegenerateEffect generateSql r s) = graphOf s.
Proof.
  unfold dbTypeEffect, settingsEffect, forceRegenerateEffect, andThen, when, skip.
  destruct (isEditing r); simpl; repeat split.
Qed.

Lemma effects_graph (prev cur : EditorState) :
  let st := effects prev cur in
  graphOf st = graphOf cur \/
  (isEditing cur = true /\
   exists p, parseSqlToSchema (editableSql cur) = Parsed p /\
     nodes (store st) = preservedNodes (nodes (store cur)) (parsedNodes p) /\
     edges (store st) = parsedEdges p).
Proof.
  unfold runEffects, andThen.
  set (s1 := when (dbTypeChanged prev cur) (dbTypeEffect generateSql cur) cur).
  set (s2 := when (settingsChanged prev cur) (settingsEffect generateSql cur) s1).
  set (s3 := when (liveDepsChanged prev cur)
               (liveUpdateEffect parseSqlToSchema fixCommonSqlIssues cur) s2).
  assert (H1 : graphOf s1 = graphOf cur).
  { subst s1. unfold when. destruct (dbTypeChanged prev cur); [|reflexivity].
    apply regeneration_graph. }
  assert (H2 : graphOf s2 = graphOf cur).
  { subst s2. unfold when. destruct (settingsChanged prev cur); [|exact H1].
    rewrite <- H1. apply regeneration_graph. }
  assert (H4 : forall s, graphOf (when (dbTypeChanged prev cur || settingsChanged prev cur)
                                   (forceRegenerateEffect generateSql cur) s) = graphOf s).
  { intros s. unfold when. destruct (_ || _); [|reflexivity]. apply regeneration_graph. }
  assert (H3 : graphOf s3 = graphOf s2 \/
               (isEditing cur = true /\
                exists p, parseSqlToSchema (editableSql cur) = Parsed p /\
                  nodes (store s3) = preservedNodes (nodes (store cur)) (parsedNodes p) /\
                  edges (store s3) = parsedEdges p)).
  { subst s3. unfold when. destruct (liveDepsChanged prev cur); [|now left].
    apply liveUpdateEffect_graph. }
  specialize (H4 s3).
  destruct H3 as [H3 | (Hedit & p & Hp & Hn & He)].
  - left. congruence.
  - right. split; [exact Hedit|]. exists p. split; [exact Hp|].
    unfold graphOf in H4. injection H4 as Hn4 He4 _. split; congruence.
Qed.

(** X6. Whatever the user does, the nodes, the edges and the enum types
    of the store stay as they are, or the nodes and edges are those of a
    graph the parser returned, reconciled with the previous nodes. *)
Theorem graph_changes_only_by_a_parse (ev : Event) (st : EditorState) :
  let st' := act ev st in
  graphOf st' = graphOf st \/
  exists sql p, parseSqlToSchema sql = Parsed p /\
    nodes (store st') = preservedNodes (nodes (store st)) (parsedNodes p) /\
    edges (store st') = parsedEdges p.
Proof.
  intros st'. subst st'. rewrite act_one_round.
  set (st1 := handle parseSqlToSchema fixCommonSqlIssues ev st st).
  assert (H1 : graphOf st1 = graphOf st \/
               (isEditing st1 = false /\
                exists sql p, parseSqlToSchema sql = Parsed p /\
                  nodes (store st1) = preservedNodes (nodes (store st)) (parsedNodes p) /\
                  edges (store st1) = parsedEdges p)).
  { subst st1. destruct ev; simpl; try (now left).
    - unfold handleApplySqlChanges, handleApplySqlChangesInternal, andThen.
      destruct (Js.truthy (Js.trim (editableSql st))); simpl; [|now left].
      destruct (parseSqlToSchema _) as [p| |m] eqn:Hp; [|now left..].
      right. split; [reflexivity|]. eexists _, p. split; [exact Hp|].
      unfold handleUpdateSchema, andThen, when, skip. simpl.
      now destruct (0 <? length _)%nat.
    - left. unfold handleToggleCaseSensitive, andThen, when, skip.
      now destruct (isEditing st).
    - left. unfold handleToggleInlineConstraints, andThen, when, skip.
      now destruct (isEditing st). }
  destruct (effects_graph st st1) as [H2 | (Hedit & p & Hp & Hn & He)].
  - destruct H1 as [H1 | (_ & sql & p & Hp & Hn & He)].
    + left. congruence.
    + right. exists sql, p. unfold graphOf in H2. injection H2 as Hn2 He2 _.
      repeat split; congruence.
  - destruct H1 as [H1 | (Hclean & _)]; [|congruence].
    right. exists (editableSql st1), p. unfold graphOf in H1.
    injection H1 as Hn1 He1 _. repeat split; congruence.
Qed.

(** X7. The displayed DDL is rewritten by a change of a setting only:
    Edit, Cancel, Apply, typing, the Live box and the choice of the
    current dialect leave it as it is. *)
Theorem displayed_ddl_changes_with_settings_only (ev : Event) (st : EditorState) :
  changesSetting ev st = false ->
  sqlContent (act ev st) = sqlContent st.
Proof.
  intros Hev. rewrite act_one_round.
  set (st1 := handle parseSqlToSchema fixCommonSqlIssues ev st st).
  assert (H1 : sqlContent st1 = sqlContent st /\ dbType st1 = dbType st /\
               settings st1 = settings st).
  { subst st1. destruct ev; simpl in *; try discriminate Hev; try (repeat split; fail).
    - unfold handleApplySqlChanges.
      destruct (apply_frame parseSqlToSchema fixCommonSqlIssues st st (editableSql st) false)
        as (Hd & Hs & _ & _ & Hc & _).
      unfold settings. repeat split; congruence.
    - apply negb_false_iff, String.eqb_eq in Hev. repeat split. simpl. congruence. }
  destruct H1 as (Hc & Hd & Hs).
  unfold runEffects, dbTypeChanged, settingsChanged, andThen.
  rewrite Hd, Hs, String.eqb_refl, !Bool.eqb_reflx. simpl.
  unfold when, skip. destruct (liveDepsChanged st st1); [|exact Hc].
  unfold liveUpdateEffect. destruct (_ && _); [|exact Hc].
  destruct (apply_frame parseSqlToSchema fixCommonSqlIssues st1 st1 (editableSql st1) true)
    as (_ & _ & _ & _ & Hc' & _).
  congruence.
Qed.


(** X8. Cancel leaves the Live box as it is, so with a text in the
    buffer the next Edit applies it at once as a live update; ticking
    the box while editing does the same. *)
Theorem live_box_applies_at_once (st : EditorState) :
  Js.truthy (editableSql st) = true ->
  liveEditMode (act ClickCancel st) = liveEditMode st /\
  (isEditing st = false -> liveEditMode st = true ->
     act ClickEdit st =
       applySql (setIsEditing true st) (editableSql st) true (setIsEditing true st)) /\
  (isEditing st = true -> liveEditMode st = false ->
     act (SetLive true) st =
       applySql (setLiveEditMode true st) (editableSql st) true (setLiveEditMode true st)).
Proof.
  intros Htext. repeat apply conj.
  - now rewrite act_cancel.
  - intros Hedit Hlive. rewrite act_one_round. simpl.
    unfold runEffects, dbTypeChanged, settingsChanged, liveDepsChanged,
      liveUpdateEffect, andThen, when, skip. simpl.
    rewrite Hedit, Hlive, Htext, !String.eqb_refl, !Bool.eqb_reflx. reflexivity.
  - intros Hedit Hlive. rewrite act_one_round. simpl.
    unfold runEffects, dbTypeChanged, settingsChanged, liveDepsChanged,
      liveUpdateEffect, andThen, when, skip. simpl.
    rewrite Hedit, Hlive, Htext, !String.eqb_refl, !Bool.eqb_reflx. reflexivity.
Qed.

(** X2. The first render over any stored schema: the four texts hold
    the DDL generated for PostgreSQL under the stored settings (the
    defaults when none are stored), those settings are written to the
    store, the graph is untouched and the editor is at rest. *)
Theorem mount_initial (s : Schema) :
  let st := mount generateSql parseSqlToSchema fixCommonSqlIssues (initialState s) in
  let ddl := generateSql "postgresql" (nodes s) (edges s) (enumTypes s)
               (default defaultSettings (storedSettings s)) in
  sqlContent st = ddl /\ appliedSql st = ddl /\ editableSql st = ddl /\
  code (store st) = ddl /\
  storedSettings (store st) = Some (default defaultSettings (storedSettings s)) /\
  graphOf st = (nodes s, edges s, enumTypes s) /\
  dbType st = "postgresql" /\ isEditing st = false /\ liveEditMode st = false /\
  error st = None /\ toasts st = [].
Proof.
  intros st ddl. subst st ddl. unfold mount.
  set (r := initialState s).
  set (st := (mountEffect generateSql r ;; dbTypeEffect generateSql r ;;
              settingsEffect generateSql r ;;
              liveUpdateEffect parseSqlToSchema fixCommonSqlIssues r ;;
              forceRegenerateEffect generateSql r)%update r).
  assert (Hst : st =
    {| store := {| nodes := nodes s; edges := edges s; enumTypes := enumTypes s;
                   storedSettings := Some (default defaultSettings (storedSettings s));
                   code := generated generateSql r |};
       appliedSql := generated generateSql r; dbType := "postgresql";
       sqlContent := generated generateSql r; editableSql := generated generateSql r;
       isEditing := false; error := None; liveEditMode := false; toasts := [] |}).
  { subst st r. unfold mountEffect, dbTypeEffect, settingsEffect, liveUpdateEffect,
      forceRegenerateEffect, andThen, when, skip, initialState. simpl.
    destruct s as [ns es ts [stored|] c]; vm_compute; reflexivity. }
  rewrite effects_settled.
  - rewrite Hst. simpl. unfold generated, settings. simpl. repeat split.
  - rewrite Hst. reflexivity.
  - rewrite Hst. unfold settings. simpl. now destruct (storedSettings s).
  - left. now rewrite Hst.
Qed.

Lemma act_toggle (ev : Event) (st : EditorState) :
  isToggle ev = true ->
  let st' := act ev st in
  let ddl := generateSql (dbType st) (nodes (store st)) (edges (store st))
               (enumTypes (store st)) (flipOf ev (settings st)) in
  graphOf st' = graphOf st /\ dbType st' = dbType st /\
  isEditing st' = isEditing st /\
  storedSettings (store st') = Some (flipOf ev (settings st)) /\
  sqlContent st' = ddl /\ appliedSql st' = ddl /\ code (store st') = ddl /\
  editableSql st' = (if isEditing st then editableSql st else ddl).
Proof.
  intros Hev st'. subst st'. rewrite act_one_round.
  set (st1 := handle parseSqlToSchema fixCommonSqlIssues ev st st).
  assert (H1 : graphOf st1 = graphOf st /\ dbType st1 = dbType st /\
               isEditing st1 = isEditing st /\ liveEditMode st1 = liveEditMode st /\
               editableSql st1 = editableSql st /\
               storedSettings (store st1) = Some (flipOf ev (settings st)) /\
               settingsChanged st st1 = true).
  { subst st1. destruct ev; try discriminate Hev; simpl;
      unfold handleToggleCaseSensitive, handleToggleInlineConstraints,
        settingsChanged, settings, andThen, when, skip;
      destruct (isEditing st) eqn:Hedit; simpl; rewrite ?Hedit; repeat split;
      destruct (default defaultSettings (storedSettings (store st))) as [[] []];
      reflexivity. }
  destruct H1 as (Hg & Hd & Hi & Hl & He & Hs & Hch).
  destruct (effects_after_setting generateSql parseSqlToSchema fixCommonSqlIssues st st1)
    as (Hn2 & He2 & Ht2 & Hs2 & Hd2 & Hi2 & _ & _ & _ & Hsql & Happ & Hcode & Hed);
    try congruence.
  { now rewrite Hch, orb_true_r. }
  unfold graphOf in Hg. injection Hg as Hgn Hge Hgt.
  assert (Hgen : generated generateSql st1 =
                 generateSql (dbType st) (nodes (store st)) (edges (store st))
                   (enumTypes (store st)) (flipOf ev (settings st))).
  { unfold generated, settings. rewrite Hd, Hgn, Hge, Hgt, Hs. reflexivity. }
  unfold graphOf. rewrite Hn2, He2, Ht2, Hgn, Hge, Hgt.
  repeat split; try congruence.
  rewrite Hed, Hi, He, Hgen. reflexivity.
Qed.

(** X9. Toggling the same setting twice gives back the settings and
    leaves graph and editing state alone; the displayed DDL, the rollback
    text and the stored code end as the DDL generated from the state
    before the toggles, and so does the text buffer unless the user is
    editing, when it is kept. *)
Theorem toggle_twice (ev : Event) (st : EditorState) :
  isToggle ev = true ->
  let st' := act ev (act ev st) in
  settings st' = settings st /\
  graphOf st' = graphOf st /\
  isEditing st' = isEditing st /\
  sqlContent st' = generated generateSql st /\
  appliedSql st' = generated generateSql st /\
  code (store st') = generated generateSql st /\
  editableSql st' = (if isEditing st then editableSql st else generated generateSql st).
Proof.
  intros Hev st'. subst st'.
  destruct (act_toggle ev st Hev) as (Hg & Hd & Hi & Hs & _ & _ & _ & He).
  destruct (act_toggle ev (act ev st) Hev) as (Hg' & Hd' & Hi' & Hs' & Hsql & Happ & Hcode & He').
  assert (Hflip : flipOf ev (settings (act ev st)) = settings st).
  { unfold settings at 1. rewrite Hs. simpl.
    destruct ev; try discriminate Hev; destruct (settings st) as [[] []]; reflexivity. }
  unfold graphOf in Hg. injection Hg as Hgn Hge Hgt.
  rewrite Hflip, Hd, Hgn, Hge, Hgt in Hsql, Happ, Hcode, He'.
  repeat split.
  - unfold settings at 1. rewrite Hs', Hflip. reflexivity.
  - unfold graphOf in *. congruence.
  - congruence.
  - exact Hsql.
  - exact Happ.
  - exact Hcode.
  - rewrite He', Hi, He. unfold generated. now destruct (isEditing st).
Qed.

End Rounds.

(* ================================================================== *)
(** ** The loop of the de-duplication *)
(* ================================================================== *)

Lemma uniqueLines_cons (seen : gset string) (line : string) (rest : list string) :
  Repair.uniqueLines seen (line :: rest) =
  if isConstraintStatement line then
    if decide (Js.trim line ∈ seen) then Repair.uniqueLines seen rest
    else ((Repair.uniqueLines ({[Js.trim line]} ∪ seen) rest).1,
          line :: (Repair.uniqueLines ({[Js.trim line]} ∪ seen) rest).2)
  else ((Repair.uniqueLines seen rest).1, line :: (Repair.uniqueLines seen rest).2).
Proof.
  cbn [Repair.uniqueLines]. unfold isConstraintStatement.
  destruct (_ && _).
  - destruct (decide _); [reflexivity|]. now destruct (Repair.uniqueLines _ rest).
  - now destruct (Repair.uniqueLines _ rest).
Qed.

Lemma statementsOf_cons (line : string) (rest : list string) :
  statementsOf (line :: rest) =
  if isConstraintStatement line then Js.trim line :: statementsOf rest
  else statementsOf rest.
Proof. unfold statementsOf. simpl. now destruct (isConstraintStatement line). Qed.

Lemma filter_rest_cons (line : string) (rest : list string) :
  List.filter (fun l => negb (isConstraintStatement l)) (line :: rest) =
  if isConstraintStatement line
  then List.filter (fun l => negb (isConstraintStatement l)) rest
  else line :: List.filter (fun l => negb (isConstraintStatement l)) rest.
Proof. simpl. now destruct (isConstraintStatement line). Qed.

(** The loop over the lines of a section, started with any set. *)
Lemma uniqueLines_facts (lines : list string) (seen : gset string) :
  let seen' := (Repair.uniqueLines seen lines).1 in
  let kept := (Repair.uniqueLines seen lines).2 in
  sublist kept lines /\
  List.filter (fun l => negb (isConstraintStatement l)) kept =
    List.filter (fun l => negb (isConstraintStatement l)) lines /\
  NoDup (statementsOf kept) /\
  (forall t, t ∈ statementsOf kept -> t ∉ seen) /\
  (forall t, t ∈ statementsOf lines -> t ∈ seen \/ t ∈ statementsOf kept) /\
  seen' = seen ∪ list_to_set (statementsOf lines).
Proof.
  revert seen. induction lines as [|line rest IH]; intros seen; cbv zeta.
  - repeat split.
    + constructor.
    + constructor.
    + intros t Ht. inversion Ht.
    + intros t Ht. inversion Ht.
    + cbn. now rewrite (right_id_L ∅ (∪)).
  - rewrite uniqueLines_cons, statementsOf_cons, filter_rest_cons.
    destruct (isConstraintStatement line) eqn:Hline.
    + destruct (decide (Js.trim line ∈ seen)) as [Hin|Hout].
      * destruct (IH seen) as (H1 & H2 & H3 & H4 & H5 & H6).
        repeat split; auto.
        -- now apply sublist_cons.
        -- intros t [->|Ht]%elem_of_cons; auto.
        -- rewrite H6. apply set_eq. intros t.
           rewrite !elem_of_union, list_to_set_cons, elem_of_union, elem_of_singleton.
           split; [tauto|]. intros [?|[->|?]]; tauto.
      * destruct (IH ({[Js.trim line]} ∪ seen)) as (H1 & H2 & H3 & H4 & H5 & H6).
        cbn [fst snd]. rewrite statementsOf_cons, filter_rest_cons, Hline.
        repeat split.
        -- now apply sublist_skip.
        -- exact H2.
        -- apply NoDup_cons. split; [|exact H3].
           intros Hin. apply H4 in Hin. apply Hin, elem_of_union. left.
           now apply elem_of_singleton.
        -- intros t [->|Ht]%elem_of_cons; [exact Hout|].
           apply H4 in Ht. intros Hs. apply Ht, elem_of_union. now right.
        -- intros t [->|Ht]%elem_of_cons; [right; left|].
           destruct (H5 t Ht) as [Hs|Hk].
           ++ apply elem_of_union in Hs as [Hs|Hs]; [|now left].
              apply elem_of_singleton in Hs. subst t. right. left.
           ++ right. now right.
        -- rewrite H6. apply set_eq. intros t.
           rewrite !elem_of_union, list_to_set_cons, elem_of_union, elem_of_singleton.
           tauto.
    + destruct (IH seen) as (H1 & H2 & H3 & H4 & H5 & H6).
      cbn [fst snd]. rewrite statementsOf_cons, filter_rest_cons, Hline.
      repeat split; auto.
      * now apply sublist_skip.
      * now rewrite H2.
Qed.

(** X14. The loop over the lines of a section keeps a constraint
    statement exactly when it is neither in the set handed over from the
    sections before nor on an earlier line: the kept statements are
    pairwise distinct and none is in that set, every statement of the
    section is in the set or kept, and the set handed on is the old one
    with the statements of the section. *)
Theorem uniqueLines_keeps_first_occurrences (lines : list string) (seen : gset string) :
  NoDup (statementsOf (Repair.uniqueLines seen lines).2) /\
  (forall t, t ∈ statementsOf lines ->
     (t ∈ statementsOf (Repair.uniqueLines seen lines).2 <-> t ∉ seen)) /\
  (forall t, t ∈ (Repair.uniqueLines seen lines).1 <->
             t ∈ seen \/ t ∈ statementsOf lines).
Proof.
  destruct (uniqueLines_facts lines seen) as (_ & _ & H3 & H4 & H5 & H6).
  repeat split.
  - exact H3.
  - apply H4.
  - intros Hout. destruct (H5 t H) as [Hin|Hin]; [contradiction | exact Hin].
  - rewrite H6. intros [Hin|Hin]%elem_of_union; [now left|].
    right. now apply elem_of_list_to_set in Hin.
  - rewrite H6. intros [Hin|Hin]; apply elem_of_union; [now left|].
    right. now apply elem_of_list_to_set.
Qed.


Lemma splitChar_nonempty (c : ascii) (s : string) : Js.splitChar c s <> [].
Proof.
  destruct s as [|d s]; simpl; [discriminate|].
  destruct (Ascii.eqb c d); [discriminate|].
  destruct (Js.splitChar c s); discriminate.
Qed.

Lemma join_cons (sep x : string) (l : list string) :
  l <> [] -> Js.join sep (x :: l) = x ++ sep ++ Js.join sep l.
Proof. destruct l; [congruence | reflexivity]. Qed.

(** Splitting a text in lines and joining them gives the text back. *)
Lemma join_splitChar (s : string) : Js.join Js.LF (Js.splitChar Js.lf s) = s.
Proof.
  induction s as [|d s IH]; [reflexivity|].
  cbn [Js.splitChar]. destruct (Ascii.eqb Js.lf d) eqn:Hd.
  - apply Ascii.eqb_eq in Hd. subst d.
    rewrite join_cons by apply splitChar_nonempty. now rewrite IH.
  - destruct (Js.splitChar Js.lf s) as [|p ps] eqn:E.
    + now apply splitChar_nonempty in E.
    + destruct ps as [|q ps].
      * simpl in *. now rewrite IH.
      * rewrite join_cons in * by discriminate.
        rewrite append_cons. now rewrite IH.
Qed.

Lemma length_join_cons (sep x : string) (l : list string) :
  String.length (Js.join sep (x :: l)) =
  (String.length x +
   match l with
   | [] => 0
   | _ => String.length sep + String.length (Js.join sep l)
   end)%nat.
Proof.
  destruct l as [|y l]; [simpl; lia|].
  rewrite join_cons by discriminate. now rewrite !length_append.
Qed.

Lemma length_join_sublist (sep : string) (k l : list string) :
  sublist k l -> (String.length (Js.join sep k) <= String.length (Js.join sep l))%nat.
Proof.
  induction 1 as [|x k l Hkl IH|x k l Hkl IH].
  - reflexivity.
  - rewrite !length_join_cons. destruct k as [|y k].
    + lia.
    + destruct l as [|z l]; [inversion Hkl | lia].
  - rewrite length_join_cons. destruct l as [|z l].
    + apply sublist_nil_r in Hkl. subst k. simpl. lia.
    + lia.
Qed.

Lemma length_concat_cons (x : string) (l : list string) :
  String.length (Js.concat (x :: l)) =
  (String.length x + String.length (Js.concat l))%nat.
Proof. cbn [Js.concat]. apply length_append. Qed.

Lemma processSections_length (sections : list string) (seen : gset string) :
  (String.length (Js.concat (Repair.processSections seen sections)) <=
   String.length (Js.concat sections))%nat.
Proof.
  revert seen. induction sections as [|section rest IH]; intros seen; [reflexivity|].
  cbn [Repair.processSections].
  destruct (negb (Js.includes Repair.sectionMarker section)).
  - rewrite !length_concat_cons. specialize (IH seen). lia.
  - destruct (Repair.uniqueLines seen (Js.splitChar Js.lf section)) as [seen' kept] eqn:E.
    rewrite !length_concat_cons. specialize (IH seen').
    destruct (uniqueLines_facts (Js.splitChar Js.lf section) seen) as (Hsub & _).
    rewrite E in Hsub. cbn [snd] in Hsub.
    apply (length_join_sublist Js.LF) in Hsub.
    rewrite join_splitChar in Hsub. lia.
Qed.

(** X15. The de-duplication only takes text away: its result is never
    longer than the text it was given. *)
Theorem dedup_never_lengthens (sql : string) :
  (String.length (Repair.removeDuplicateAlterTableStatements sql) <= String.length sql)%nat.
Proof.
  unfold Repair.removeDuplicateAlterTableStatements.
  rewrite <- (split_concat sql) at 2. apply processSections_length.
Qed.

Lemma comment_match_starts (s : string) (m : nat * string) :
  Regex.matchAt false Repair.commentRegex s = Some m -> Js.startsWith "-- " s = true.
Proof.
  unfold Regex.matchAt, Repair.commentRegex. cbn [Regex.run Regex.lit].
  destruct s as [|a [|b [|c s]]]; cbn [Regex.run Js.startsWith Regex.sameChar];
    try discriminate;
    destruct (Ascii.eqb "-" a); try discriminate;
    destruct (Ascii.eqb "-" b); try discriminate;
    destruct (Ascii.eqb " " c); try discriminate.
  reflexivity.
Qed.

Lemma splitFrom_without_comment (s piece : string) :
  Js.includes "-- " s = false ->
  Regex.splitFrom Repair.commentRegex 0 piece s = [String.rev piece ++ s].
Proof.
  revert piece. induction s as [|d s IH]; intros piece Hs.
  - simpl. now rewrite append_nil_r.
  - rewrite includes_cons in Hs. apply orb_false_elim in Hs as [Hstart Hrest].
    cbn [Regex.splitFrom].
    destruct (Regex.matchAt false Repair.commentRegex (String d s)) as [m|] eqn:E.
    + apply comment_match_starts in E. congruence.
    + rewrite (IH _ Hrest), rev_cons, append_assoc. reflexivity.
Qed.

Lemma splitChar_app (x t : string) :
  Js.includes Js.LF x = false ->
  Js.splitChar Js.lf (x ++ Js.LF ++ t) = x :: Js.splitChar Js.lf t.
Proof.
  induction x as [|d x IH]; intros Hx.
  - reflexivity.
  - rewrite includes_cons in Hx. apply orb_false_elim in Hx as [Hd Hx].
    unfold Js.LF in Hd. cbn [Js.startsWith] in Hd.
    rewrite append_cons. cbn [Js.splitChar].
    destruct (Ascii.eqb Js.lf d); [discriminate Hd|].
    now rewrite (IH Hx).
Qed.

Lemma splitChar_join (l : list string) :
  l <> [] -> Forall (fun x => Js.includes Js.LF x = false) l ->
  Js.splitChar Js.lf (Js.join Js.LF l) = l.
Proof.
  induction l as [|x l IH]; [congruence|]. intros _ Hall.
  apply Forall_cons in Hall as [Hx Hl]. destruct l as [|y l].
  - simpl. now apply splitChar_single.
  - rewrite join_cons by discriminate.
    rewrite (splitChar_app _ _ Hx). f_equal. now apply IH.
Qed.

Lemma splitChar_lines (s : string) :
  Forall (fun x => Js.includes Js.LF x = false) (Js.splitChar Js.lf s).
Proof.
  induction s as [|d s IH]; [now repeat constructor|].
  cbn [Js.splitChar]. destruct (Ascii.eqb Js.lf d) eqn:Hd.
  - constructor; [reflexivity | exact IH].
  - destruct (Js.splitChar Js.lf s) as [|p ps] eqn:E.
    + now apply splitChar_nonempty in E.
    + apply Forall_cons in IH as [Hp Hps]. constructor; [|exact Hps].
      rewrite includes_cons, Hp. unfold Js.LF. cbn [Js.startsWith]. now rewrite Hd.
Qed.

Lemma uniqueLines_first_kept (line : string) (rest : list string) :
  (Repair.uniqueLines ∅ (line :: rest)).2 <> [].
Proof.
  rewrite uniqueLines_cons. destruct (isConstraintStatement line).
  - destruct (decide (Js.trim line ∈ (∅ : gset string))) as [Hin|_]; [|discriminate].
    now apply not_elem_of_empty in Hin.
  - discriminate.
Qed.

(** X16. Where the de-duplication does its work: on a text that holds
    the marker and no line comment, the lines of the result are lines of
    the text in their order, every line that is not a constraint
    statement is kept, no two kept statements are equal once trimmed,
    and every statement of the text is still there. *)
Theorem dedup_in_a_text_without_line_comments (sql : string) :
  Js.includes "-- " sql = false ->
  Js.includes Repair.sectionMarker sql = true ->
  let before := Js.splitChar Js.lf sql in
  let after := Js.splitChar Js.lf (Repair.removeDuplicateAlterTableStatements sql) in
  sublist after before /\
  List.filter (fun l => negb (isConstraintStatement l)) after =
    List.filter (fun l => negb (isConstraintStatement l)) before /\
  NoDup (statementsOf after) /\
  (forall t, t ∈ statementsOf before -> t ∈ statementsOf after).
Proof.
  intros Hplain Hmarker before after.
  assert (Hafter : after = (Repair.uniqueLines ∅ before).2).
  { subst after before. unfold Repair.removeDuplicateAlterTableStatements, Regex.split.
    rewrite (splitFrom_without_comment sql "" Hplain).
    change (String.rev "" ++ sql) with sql.
    cbn [Repair.processSections]. rewrite Hmarker. cbn [negb].
    destruct (Repair.uniqueLines ∅ (Js.splitChar Js.lf sql)) as [seen kept] eqn:E.
    cbn [Repair.processSections Js.concat snd]. rewrite append_nil_r.
    destruct (uniqueLines_facts (Js.splitChar Js.lf sql) ∅) as (Hsub & _).
    rewrite E in Hsub. cbn [snd] in Hsub.
    apply splitChar_join.
    - destruct (Js.splitChar Js.lf sql) as [|line rest] eqn:El.
      + now apply splitChar_nonempty in El.
      + pose proof (uniqueLines_first_kept line rest) as Hne. now rewrite E in Hne.
    - apply Forall_forall. intros x Hx.
      pose proof (splitChar_lines sql) as Hall. rewrite Forall_forall in Hall.
      apply Hall. exact (elem_of_sublist _ _ _ Hx Hsub). }
  destruct (uniqueLines_facts before ∅) as (H1 & H2 & H3 & _ & H5 & _).
  rewrite Hafter. repeat split; auto.
  intros t Ht. destruct (H5 t Ht) as [Hin|Hin]; [|exact Hin].
  now apply not_elem_of_empty in Hin.
Qed.

(* ================================================================== *)
(** ** The quoting pass needs a keyword *)
(* ================================================================== *)

Lemma every_code_unit (a : ascii) : In a (List.map ascii_of_nat (seq 0 256)).
Proof.
  rewrite <- (ascii_nat_embedding a). apply in_map. apply in_seq.
  pose proof (nat_ascii_bounded a). lia.
Qed.

Lemma sameChar_lower (c d : ascii) :
  Regex.sameChar true c d = true -> Js.lowerChar c = Js.lowerChar d.
Proof.
  assert (Hall :
    forallb (fun c => forallb (fun d =>
      implb (Regex.sameChar true c d) (Ascii.eqb (Js.lowerChar c) (Js.lowerChar d)))
      (List.map ascii_of_nat (seq 0 256))) (List.map ascii_of_nat (seq 0 256)) = true)
    by (vm_compute; reflexivity).
  rewrite forallb_forall in Hall. specialize (Hall c (every_code_unit c)).
  rewrite forallb_forall in Hall. specialize (Hall d (every_code_unit d)).
  intros H. rewrite H in Hall. now apply Ascii.eqb_eq.
Qed.

Lemma run_lit_prefix (w : string) :
  w <> "" ->
  forall s cap k m,
    Regex.run true (Regex.lit w) s cap k = Some m ->
    Js.startsWith (Js.toLowerCase w) (Js.toLowerCase s) = true.
Proof.
  induction w as [|c w IH]; [congruence|]. intros _ s cap k m.
  destruct w as [|c' w'].
  - cbn [Regex.lit Regex.run]. destruct s as [|d s]; [discriminate|].
    destruct (Regex.sameChar true c d) eqn:Hc; [|discriminate]. intros _.
    cbn [Js.toLowerCase Js.startsWith].
    rewrite (sameChar_lower _ _ Hc), Ascii.eqb_refl. reflexivity.
  - change (Regex.lit (String c (String c' w')))
      with (Regex.Cat (Regex.Chr c) (Regex.lit (String c' w'))).
    cbn [Regex.run]. destruct s as [|d s]; [discriminate|].
    destruct (Regex.sameChar true c d) eqn:Hc; [|discriminate]. intros Hrun.
    change (Js.toLowerCase (String c (String c' w')))
      with (String (Js.lowerChar c) (Js.toLowerCase (String c' w'))).
    change (Js.toLowerCase (String d s)) with (String (Js.lowerChar d) (Js.toLowerCase s)).
    cbn [Js.startsWith]. rewrite (sameChar_lower _ _ Hc), Ascii.eqb_refl.
    eapply IH; [discriminate | exact Hrun].
Qed.

Lemma matchAt_keyword (w : string) (rest : Regex.regex) (s : string) (m : nat * string) :
  w <> "" ->
  Regex.matchAt true (Regex.Cat (Regex.lit w) rest) s = Some m ->
  Js.startsWith (Js.toLowerCase w) (Js.toLowerCase s) = true.
Proof.
  intros Hw. unfold Regex.matchAt. cbn [Regex.run].
  destruct (Regex.run true (Regex.lit w) s None _) as [o|] eqn:E; [|discriminate].
  intros _. eapply run_lit_prefix; eauto.
Qed.

Lemma replaceFrom_without_keyword (w : string) (rest : Regex.regex)
    (template : string -> string) (s : string) :
  w <> "" ->
  Js.includes (Js.toLowerCase w) (Js.toLowerCase s) = false ->
  Regex.replaceAll true (Regex.Cat (Regex.lit w) rest) template s = s.
Proof.
  intros Hw. unfold Regex.replaceAll. induction s as [|d s IH]; intros Hs.
  - cbn [Regex.replaceFrom].
    destruct (Regex.matchAt true _ "") as [m|] eqn:E; [|reflexivity].
    apply (matchAt_keyword w rest "" m Hw) in E.
    cbn [Js.toLowerCase] in E, Hs. cbn [Js.includes] in Hs.
    rewrite E in Hs. discriminate.
  - change (Js.toLowerCase (String d s)) with (String (Js.lowerChar d) (Js.toLowerCase s)) in Hs.
    rewrite includes_cons in Hs. apply orb_false_elim in Hs as [Hstart Hrest].
    cbn [Regex.replaceFrom].
    destruct (Regex.matchAt true _ (String d s)) as [m|] eqn:E.
    + apply (matchAt_keyword w rest _ m Hw) in E.
      change (Js.toLowerCase (String d s)) with (String (Js.lowerChar d) (Js.toLowerCase s)) in E.
      congruence.
    + now rewrite (IH Hrest).
Qed.

(** X12. The quoting pass rewrites nothing in a text that holds none of
    the words CREATE, ALTER and REFERENCES, in whatever case. *)
Theorem quoting_needs_a_keyword (sql : string) :
  Js.includes "create" (Js.toLowerCase sql) = false ->
  Js.includes "alter" (Js.toLowerCase sql) = false ->
  Js.includes "references" (Js.toLowerCase sql) = false ->
  Repair.ensureTableNamesAreQuoted sql = sql.
Proof.
  intros Hc Ha Hr. unfold Repair.ensureTableNamesAreQuoted. cbv zeta.
  change Repair.createTableRegex with (Regex.Cat (Regex.lit "CREATE")
    (Regex.seq [Repair.spaces1; Regex.lit "TABLE"; Repair.spaces1;
       Regex.Opt (Regex.seq [Regex.lit "IF"; Repair.spaces1; Regex.lit "NOT";
                             Repair.spaces1; Regex.lit "EXISTS"; Repair.spaces1]);
       Repair.twoWords; Repair.noQuoteAhead; Repair.spaces0; Regex.Chr "("])).
  rewrite (replaceFrom_without_keyword "CREATE") by (discriminate || exact Hc).
  change Repair.alterTableRegex with (Regex.Cat (Regex.lit "ALTER")
    (Regex.seq [Repair.spaces1; Regex.lit "TABLE"; Repair.spaces1;
       Repair.twoWords; Repair.noQuoteAhead; Repair.spaces1])).
  rewrite (replaceFrom_without_keyword "ALTER") by (discriminate || exact Ha).
  change Repair.referencesRegex with (Regex.Cat (Regex.lit "REFERENCES")
    (Regex.seq [Repair.spaces1; Repair.twoWords; Repair.noQuoteAhead;
                Repair.spaces0; Regex.Chr "("])).
  now rewrite (replaceFrom_without_keyword "REFERENCES") by (discriminate || exact Hr).
Qed.

(* ================================================================== *)
(** ** Reconciling again *)
(* ================================================================== *)

Lemma orElse_same (a : option string) : orElse a a = a.
Proof. unfold orElse. now destruct (truthyOpt a). Qed.

Lemma orElse_twice (a b : option string) : orElse a (orElse a b) = orElse a b.
Proof. unfold orElse. now destruct (truthyOpt a) eqn:E; rewrite ?E. Qed.

Lemma find_own_id (ns : list SchemaNode) (n : SchemaNode) :
  NoDup (List.map id ns) -> n ∈ ns -> List.find (sameId n) ns = Some n.
Proof.
  induction ns as [|m ns IH]; intros Hids Hin; [now apply elem_of_nil in Hin|].
  cbn [List.map] in Hids. apply NoDup_cons in Hids as [Hm Hids].
  cbn [List.find]. unfold sameId at 1.
  apply elem_of_cons in Hin as [->|Hin].
  - now rewrite String.eqb_refl.
  - destruct (String.eqb (id m) (id n)) eqn:E; [|now apply IH].
    apply String.eqb_eq in E. exfalso. apply Hm. rewrite E.
    apply list_elem_of_In, in_map, list_elem_of_In, Hin.
Qed.

Lemma preserveNode_own (ns : list SchemaNode) (n : SchemaNode) :
  NoDup (List.map id ns) -> n ∈ ns -> preserveNode ns n = n.
Proof.
  intros Hids Hin. unfold preserveNode, nodeToPreserve.
  rewrite (find_own_id ns n Hids Hin).
  destruct n as [i t [p|] s [l c k]]; cbn; [|reflexivity].
  now rewrite orElse_same.
Qed.

(** X10. Reconciling the nodes of the graph with themselves leaves them
    as they are, when no two nodes share an id. *)
Theorem reconcile_with_itself (ns : list SchemaNode) :
  NoDup (List.map id ns) -> preservedNodes ns ns = ns.
Proof.
  intros Hids. unfold preservedNodes.
  rewrite <- (map_id ns) at 3. apply map_ext_in. intros n Hin.
  apply preserveNode_own; [exact Hids | now apply list_elem_of_In].
Qed.

Lemma find_agree {A : Type} (f g : A -> bool) (l : list A) :
  (forall a, f a = g a) -> List.find f l = List.find g l.
Proof.
  intros Hfg. induction l as [|m l IH]; [reflexivity|].
  cbn [List.find]. now rewrite Hfg, IH.
Qed.

Lemma nodeToPreserve_key (oldNodes : list SchemaNode) (a b : SchemaNode) :
  id a = id b -> label (data a) = label (data b) ->
  nodeToPreserve oldNodes a = nodeToPreserve oldNodes b.
Proof.
  intros Hid Hlabel. unfold nodeToPreserve.
  rewrite (find_agree (sameId a) (sameId b))
    by (intros n; unfold sameId; now rewrite Hid).
  rewrite (find_agree (sameLabel a) (sameLabel b))
    by (intros n; unfold sameLabel; now rewrite Hlabel).
  reflexivity.
Qed.

Lemma preserveNode_twice (oldNodes : list SchemaNode) (n : SchemaNode) :
  preserveNode oldNodes (preserveNode oldNodes n) = preserveNode oldNodes n.
Proof.
  assert (Hkey : nodeToPreserve oldNodes (preserveNode oldNodes n) =
                 nodeToPreserve oldNodes n).
  { apply nodeToPreserve_key; unfold preserveNode;
      destruct (nodeToPreserve oldNodes n) as [m|]; try reflexivity;
      destruct (position m); reflexivity. }
  unfold preserveNode at 1. rewrite Hkey. unfold preserveNode.
  destruct (nodeToPreserve oldNodes n) as [m|]; [|reflexivity].
  destruct (position m); [|reflexivity].
  cbn. now rewrite orElse_twice.
Qed.

(** X11. Reconciling a second time with the same previous graph changes
    nothing more. *)
Theorem reconcile_twice (oldNodes newNodes : list SchemaNode) :
  preservedNodes oldNodes (preservedNodes oldNodes newNodes) =
  preservedNodes oldNodes newNodes.
Proof.
  unfold preservedNodes. rewrite List.map_map. apply map_ext.
  intros n. apply preserveNode_twice.
Qed.

(* ================================================================== *)
(** ** The handlers of the column sidebar *)
(* ================================================================== *)

Lemma titles_app (a b : list Column) :
  Sidebar.titles (a ++ b) = (Sidebar.titles a ++ Sidebar.titles b)%list.
Proof. apply List.map_app. Qed.

(** X17. [addColumn] picks no free title: after two calls in a row the
    schema is the old one with two more columns, and the titles are not
    distinct whatever they were before. *)
Theorem addColumn_twice_repeats_a_title
    (node node' : SchemaNode) (now now' : string) (once twice : list Column) :
  Sidebar.addColumn now (Some node) = Some once ->
  schema (data node') = once ->
  Sidebar.addColumn now' (Some node') = Some twice ->
  length twice = S (S (length (schema (data node)))) /\
  take (length (schema (data node))) twice = schema (data node) /\
  ~ NoDup (Sidebar.titles twice).
Proof.
  unfold Sidebar.addColumn. intros [= <-] Hnode' [= <-]. rewrite Hnode'.
  repeat split.
  - rewrite !length_app. simpl. lia.
  - rewrite <- app_assoc. now rewrite take_app_length.
  - rewrite <- app_assoc, titles_app. intros Hdup.
    apply NoDup_app in Hdup as (_ & _ & Hdup). cbn in Hdup.
    apply NoDup_cons in Hdup as [Hdup _]. apply Hdup. now left.
Qed.

(** X18. Removing the column that [addColumn] has just appended gives
    the schema back. *)
Theorem add_then_remove
    (node node' : SchemaNode) (now : string) (added : list Column) :
  Sidebar.addColumn now (Some node) = Some added ->
  schema (data node') = added ->
  Sidebar.removeColumn (Some node') (length (schema (data node))) =
    Some (schema (data node)).
Proof.
  unfold Sidebar.addColumn, Sidebar.removeColumn. intros [= <-] ->.
  f_equal. rewrite delete_middle. apply app_nil_r.
Qed.

Lemma elem_of_filter_not (c d : string) (l : list string) :
  d ∈ List.filter (fun x => negb (String.eqb x c)) l <-> d ∈ l /\ d <> c.
Proof.
  rewrite !list_elem_of_In, filter_In. split; intros [H1 H2]; split; auto.
  - intros ->. now rewrite String.eqb_refl in H2.
  - apply negb_true_iff. now apply String.eqb_neq.
Qed.

(** X19. [toggleConstraint] on a column of the node sends the schema
    with that column replaced: title, type and id are kept, the
    constraint is among the new constraints exactly when it was not
    among the old ones, and every other constraint stays in or out. *)
Theorem toggleConstraint_flips
    (node : SchemaNode) (index : nat) (constraint : string) (column : Column) :
  schema (data node) !! index = Some column ->
  exists column',
    Sidebar.toggleConstraint (Some node) index constraint =
      Sidebar.Sent (<[index := column']> (schema (data node))) /\
    title column' = title column /\ colType column' = colType column /\
    colId column' = colId column /\
    (constraint ∈ constraints column' <-> constraint ∉ constraints column) /\
    (forall other, other <> constraint ->
       (other ∈ constraints column' <-> other ∈ constraints column)).
Proof.
  intros Hcol. unfold Sidebar.toggleConstraint. rewrite Hcol. cbv zeta.
  eexists. split; [reflexivity|]. cbn [title colType colId constraints].
  repeat split; try reflexivity.
  - destruct (bool_decide_reflect (constraint ∈ constraints column)) as [Hin|Hin].
    + intros H. apply elem_of_filter_not in H. tauto.
    + intros _. exact Hin.
  - destruct (bool_decide_reflect (constraint ∈ constraints column)) as [Hin|Hin].
    + tauto.
    + intros _. apply elem_of_app. right. now left.
  - destruct (bool_decide_reflect (constraint ∈ constraints column)) as [Hin|Hin].
    + intros Ho. now apply elem_of_filter_not in Ho.
    + intros Ho. apply elem_of_app in Ho as [Ho|Ho]; [exact Ho|].
      apply list_elem_of_singleton in Ho. contradiction.
  - destruct (bool_decide_reflect (constraint ∈ constraints column)) as [Hin|Hin].
    + intros Ho. now apply elem_of_filter_not.
    + intros Ho. apply elem_of_app. now left.
Qed.

Lemma filter_not_absent (c : string) (l : list string) :
  c ∉ l -> List.filter (fun x => negb (String.eqb x c)) l = l.
Proof.
  induction l as [|d l IH]; intros Hc; [reflexivity|].
  apply not_elem_of_cons in Hc as [Hd Hc]. cbn [List.filter].
  destruct (String.eqb d c) eqn:E.
  - apply String.eqb_eq in E. congruence.
  - cbn. now rewrite (IH Hc).
Qed.

(** X20. Switching on a constraint the column does not have and
    switching it off again gives the schema back. *)
Theorem toggleConstraint_twice
    (node node' : SchemaNode) (index : nat) (constraint : string)
    (column : Column) (once : list Column) :
  schema (data node) !! index = Some column ->
  constraint ∉ constraints column ->
  Sidebar.toggleConstraint (Some node) index constraint = Sidebar.Sent once ->
  schema (data node') = once ->
  Sidebar.toggleConstraint (Some node') index constraint =
    Sidebar.Sent (schema (data node)).
Proof.
  intros Hcol Hout. unfold Sidebar.toggleConstraint. rewrite Hcol. cbv zeta.
  rewrite (bool_decide_eq_false_2 _ Hout). intros [= <-] ->.
  assert (Hlt : (index < length (schema (data node)))%nat)
    by (eapply lookup_lt_Some; eauto).
  rewrite list_lookup_insert_eq by exact Hlt.
  cbn [title colType colId constraints].
  rewrite bool_decide_eq_true_2 by (apply elem_of_app; right; now left).
  rewrite List.filter_app, (filter_not_absent _ _ Hout). cbn [List.filter].
  rewrite String.eqb_refl. cbn [negb]. rewrite app_nil_r.
  rewrite list_insert_insert_eq. f_equal.
  apply list_insert_id. rewrite Hcol. now destruct column.
Qed.

(** X21. [updateColumn] on a column of the node sends the schema with
    that column replaced; constraints and id are kept; a new type is
    written as given and leaves the title, a new title leaves the type
    and is written as given or, when another column holds it, with the
    index as a suffix. *)
Theorem updateColumn_touches_one_column
    (node : SchemaNode) (index : nat) (field : Sidebar.Field) (value : string)
    (column : Column) :
  schema (data node) !! index = Some column ->
  exists column',
    Sidebar.updateColumn (Some node) index field value =
      Sidebar.SentSchema (<[index := column']> (schema (data node))) /\
    constraints column' = constraints column /\ colId column' = colId column /\
    match field with
    | Sidebar.FieldType => title column' = title column /\ colType column' = value
    | Sidebar.FieldTitle =>
        colType column' = colType column /\
        (title column' = value \/
         title column' = value ++ "_" ++ Sidebar.showIndex index /\
         value ∈ delete index (Sidebar.titles (schema (data node))))
    end.
Proof.
  intros Hcol. unfold Sidebar.updateColumn. rewrite Hcol. cbv zeta.
  eexists. split; [reflexivity|]. destruct field; cbn; repeat split.
  destruct (bool_decide_reflect
              (value ∈ delete index (Sidebar.titles (schema (data node))))) as [Hin|Hin].
  - right. split; [reflexivity | exact Hin].
  - now left.
Qed.

(** X22. Writing to a column the title it already has changes nothing,
    when the titles of the node are distinct. *)
Theorem rename_to_own_title (node : SchemaNode) (index : nat) (column : Column) :
  schema (data node) !! index = Some column ->
  NoDup (Sidebar.titles (schema (data node))) ->
  Sidebar.updateColumn (Some node) index Sidebar.FieldTitle (title column) =
    Sidebar.SentSchema (schema (data node)).
Proof.
  intros Hcol Hdistinct. unfold Sidebar.updateColumn. rewrite Hcol. cbv zeta.
  assert (Hfresh : title column ∉ delete index (Sidebar.titles (schema (data node)))).
  { pose proof (titles_lookup _ _ _ Hcol) as Ht.
    rewrite <- (take_drop_middle _ _ _ Ht) in Hdistinct.
    rewrite delete_take_drop.
    apply NoDup_app in Hdistinct as (H1 & H2 & H3).
    apply NoDup_cons in H3 as [H3 _].
    intros Hin. apply elem_of_app in Hin as [Hin|Hin]; [|contradiction].
    apply (H2 _ Hin). now left. }
  rewrite (uniqueValue_fresh _ _ _ Hfresh). f_equal.
  apply list_insert_id. rewrite Hcol. now destruct column.
Qed.

(** X23. A title that no other column holds is written as typed, and
    distinct titles stay distinct. *)
Theorem rename_to_fresh_title
    (node : SchemaNode) (index : nat) (value : string) (column : Column) :
  schema (data node) !! index = Some column ->
  NoDup (Sidebar.titles (schema (data node))) ->
  value ∉ delete index (Sidebar.titles (schema (data node))) ->
  exists newSchema,
    Sidebar.updateColumn (Some node) index Sidebar.FieldTitle value =
      Sidebar.SentSchema newSchema /\
    Sidebar.titles newSchema = <[index := value]> (Sidebar.titles (schema (data node))) /\
    NoDup (Sidebar.titles newSchema).
Proof.
  intros Hcol Hdistinct Hfresh. unfold Sidebar.updateColumn. rewrite Hcol. cbv zeta.
  rewrite (uniqueValue_fresh _ _ _ Hfresh).
  eexists. split; [reflexivity|]. rewrite titles_insert. split; [reflexivity|].
  eapply NoDup_insert_fresh; eauto using titles_lookup.
Qed.

(** X24. With an index past the last column the handlers part ways.
    [updateColumn] hands over no schema of columns but an array grown to
    reach the index: the columns of the node, empty slots up to the
    index, and an object with the written field only, its value as
    given or, for a title some column holds, with the index as a suffix.
    [removeColumn] sends the schema as it is; [toggleConstraint] reads a
    property of an undefined column. *)
Theorem index_past_the_end
    (node : SchemaNode) (index : nat) (field : Sidebar.Field) (value constraint : string) :
  (length (schema (data node)) <= index)%nat ->
  (exists holes written,
     Sidebar.updateColumn (Some node) index field value =
       Sidebar.SentSparse (schema (data node)) holes field written /\
     (length (schema (data node)) + holes = index)%nat /\
     match field with
     | Sidebar.FieldType => written = value
     | Sidebar.FieldTitle =>
         ((value ∉ Sidebar.titles (schema (data node))) /\ written = value) \/
         ((value ∈ Sidebar.titles (schema (data node))) /\
          written = value ++ "_" ++ Sidebar.showIndex index)
     end) /\
  Sidebar.removeColumn (Some node) index = Some (schema (data node)) /\
  Sidebar.toggleConstraint (Some node) index constraint = Sidebar.ColumnUndefined.
Proof.
  intros Hlen.
  assert (Hnone : schema (data node) !! index = None) by now apply lookup_ge_None.
  assert (Hall : delete index (Sidebar.titles (schema (data node))) =
                 Sidebar.titles (schema (data node))).
  { rewrite delete_take_drop.
    assert (Ht : (length (Sidebar.titles (schema (data node))) <= index)%nat)
      by (unfold Sidebar.titles; now rewrite length_map).
    rewrite take_ge by exact Ht. rewrite drop_ge by lia. apply app_nil_r. }
  repeat split.
  - unfold Sidebar.updateColumn. rewrite Hnone. cbv zeta.
    eexists _, _. split; [reflexivity|]. split; [lia|].
    destruct field; [|reflexivity]. unfold Sidebar.uniqueValue. rewrite Hall.
    destruct (bool_decide_reflect (value ∈ Sidebar.titles (schema (data node))))
      as [Hin|Hout]; [right | left]; split; (assumption || reflexivity).
  - unfold Sidebar.removeColumn. f_equal. rewrite delete_take_drop.
    rewrite take_ge by exact Hlen. rewrite drop_ge by lia. apply app_nil_r.
  - unfold Sidebar.toggleConstraint. now rewrite Hnone.
Qed.

(* ================================================================== *)
(** ** The handlers and the repairs on sample inputs *)
(* ================================================================== *)

(** An accepted apply of [CREATE TABLE Accounts ();]. *)
Lemma apply_commits_witness :
  let st' := dispatch Sample.generateSql Sample.acceptAll Sample.fixNothing
               ClickApply Sample.editing in
  isEditing st' = false /\ nodes (store st') = [] /\
  code (store st') = "CREATE TABLE Accounts ();".
Proof.
  assert (Hblank : isBlank (editableSql Sample.editing) = false) by reflexivity.
  assert (Hparse : Sample.acceptAll (repair Sample.fixNothing (editableSql Sample.editing)) =
                   Parsed Sample.emptyGraph) by reflexivity.
  pose proof (apply_commits Sample.generateSql Sample.acceptAll Sample.fixNothing
                Sample.editing Sample.emptyGraph Hblank Hparse) as H.
  cbv zeta in H. destruct H as (Hi & _ & Hn & _ & _ & _ & _ & Hc & _).
  repeat split; assumption.
Defined.

Lemma apply_leaves_editing_iff_witness :
  isEditing (dispatch Sample.generateSql Sample.acceptAll Sample.fixNothing
               ClickApply Sample.editing) = false.
Proof.
  apply (apply_leaves_editing_iff Sample.generateSql Sample.acceptAll Sample.fixNothing
           Sample.editing); [reflexivity|].
  split; [reflexivity | exists Sample.emptyGraph; reflexivity].
Defined.

Lemma apply_of_nothing_is_silent_witness :
  dispatch Sample.generateSql Sample.parseNothing Sample.fixNothing
    ClickApply Sample.editing = setError None Sample.editing.
Proof.
  apply (apply_of_nothing_is_silent Sample.generateSql Sample.parseNothing
           Sample.fixNothing Sample.editing); reflexivity.
Defined.

Lemma displayed_ddl_changes_with_settings_only_witness :
  sqlContent (dispatch Sample.generateSql Sample.acceptAll Sample.fixNothing
                (TypeSql "CREATE TABLE Orders ();") Sample.liveEditing) =
  "CREATE TABLE Users ();".
Proof.
  apply (displayed_ddl_changes_with_settings_only Sample.generateSql Sample.acceptAll
           Sample.fixNothing (TypeSql "CREATE TABLE Orders ();") Sample.liveEditing).
  reflexivity.
Defined.

Lemma live_box_applies_at_once_witness :
  liveEditMode (dispatch Sample.generateSql Sample.acceptAll Sample.fixNothing
                  ClickCancel Sample.liveEditing) = true.
Proof.
  assert (Htext : Js.truthy (editableSql Sample.liveEditing) = true) by reflexivity.
  destruct (live_box_applies_at_once Sample.generateSql Sample.acceptAll
              Sample.fixNothing Sample.liveEditing Htext) as (H & _ & _).
  exact H.
Defined.

Lemma toggle_twice_witness :
  let st' := dispatch Sample.generateSql Sample.acceptAll Sample.fixNothing
               ToggleCaseSensitive
               (dispatch Sample.generateSql Sample.acceptAll Sample.fixNothing
                  ToggleCaseSensitive Sample.editing) in
  settings st' = defaultSettings /\
  editableSql st' = "CREATE TABLE Accounts ();".
Proof.
  assert (Hev : isToggle ToggleCaseSensitive = true) by reflexivity.
  pose proof (toggle_twice Sample.generateSql Sample.acceptAll Sample.fixNothing
                ToggleCaseSensitive Sample.editing Hev) as H.
  cbv zeta in H. destruct H as (Hs & _ & _ & _ & _ & _ & He).
  split; assumption.
Defined.

Lemma reconcile_with_itself_witness :
  preservedNodes [Sample.users; Sample.accounts] [Sample.users; Sample.accounts] =
  [Sample.users; Sample.accounts].
Proof.
  apply (reconcile_with_itself [Sample.users; Sample.accounts]). compute_done.
Defined.

Lemma quoting_needs_a_keyword_witness :
  Repair.ensureTableNamesAreQuoted "SELECT id FROM order items;" =
  "SELECT id FROM order items;".
Proof.
  apply (quoting_needs_a_keyword "SELECT id FROM order items;"); reflexivity.
Defined.

(** The foreign-key section under its header comment. *)
Lemma dedup_needs_marker_outside_comments_witness :
  Repair.removeDuplicateAlterTableStatements Sample.foreignKeySection =
  Sample.foreignKeySection.
Proof.
  apply (dedup_needs_marker_outside_comments Sample.foreignKeySection).
  assert (Hsplit : Regex.split Repair.commentRegex Sample.foreignKeySection =
                   [""; "-- Foreign Key Constraints";
                    Js.LF ++ Sample.foreignKey ++ Js.LF ++ Sample.foreignKey])
    by (vm_compute; reflexivity).
  rewrite Hsplit. intros section [<-|[<-|[<-|[]]]] Hmarker.
  - vm_compute in Hmarker. discriminate Hmarker.
  - split; vm_compute; reflexivity.
  - vm_compute in Hmarker. discriminate Hmarker.
Defined.

(** The same two statements under a block comment: one is left. *)
Lemma dedup_in_a_text_without_line_comments_witness :
  NoDup (statementsOf (Js.splitChar Js.lf
           (Repair.removeDuplicateAlterTableStatements Sample.blockSection))).
Proof.
  assert (Hplain : Js.includes "-- " Sample.blockSection = false)
    by (vm_compute; reflexivity).
  assert (Hmarker : Js.includes Repair.sectionMarker Sample.blockSection = true)
    by (vm_compute; reflexivity).
  pose proof (dedup_in_a_text_without_line_comments Sample.blockSection Hplain Hmarker) as H.
  cbv zeta in H. destruct H as (_ & _ & H & _). exact H.
Defined.

Lemma addColumn_twice_repeats_a_title_witness :
  let added (now : string) :=
    {| title := "new_column"; colType := "varchar"; constraints := [];
       colId := Some now |} in
  let once := (schema (data Sample.accounts) ++ [added "1"])%list in
  let twice := (once ++ [added "2"])%list in
  Sidebar.addColumn "2" (Some (Sample.withSchema Sample.accounts once)) = Some twice /\
  ~ NoDup (Sidebar.titles twice).
Proof.
  intros added once twice. split; [reflexivity|].
  assert (H1 : Sidebar.addColumn "1" (Some Sample.accounts) = Some once) by reflexivity.
  assert (H2 : schema (data (Sample.withSchema Sample.accounts once)) = once)
    by reflexivity.
  assert (H3 : Sidebar.addColumn "2" (Some (Sample.withSchema Sample.accounts once)) =
               Some twice) by reflexivity.
  destruct (addColumn_twice_repeats_a_title Sample.accounts
              (Sample.withSchema Sample.accounts once) "1" "2" once twice H1 H2 H3)
    as (_ & _ & H).
  exact H.
Defined.

Lemma add_then_remove_witness :
  let added :=
    (schema (data Sample.accounts) ++
     [{| title := "new_column"; colType := "varchar"; constraints := [];
         colId := Some "1" |}])%list in
  Sidebar.removeColumn (Some (Sample.withSchema Sample.accounts added)) 3 =
    Some (schema (data Sample.accounts)).
Proof.
  intros added.
  assert (H1 : Sidebar.addColumn "1" (Some Sample.accounts) = Some added) by reflexivity.
  assert (H2 : schema (data (Sample.withSchema Sample.accounts added)) = added)
    by reflexivity.
  exact (add_then_remove Sample.accounts (Sample.withSchema Sample.accounts added)
           "1" added H1 H2).
Defined.

Lemma toggleConstraint_flips_witness :
  exists column',
    Sidebar.toggleConstraint (Some Sample.accounts) 0 "primary" =
      Sidebar.Sent (<[0 := column']> (schema (data Sample.accounts))) /\
    "primary" ∈ constraints column'.
Proof.
  assert (Hcol : schema (data Sample.accounts) !! 0%nat = Some (Sample.column "name"))
    by reflexivity.
  destruct (toggleConstraint_flips Sample.accounts 0 "primary" (Sample.column "name") Hcol)
    as (column' & Hsent & _ & _ & _ & Hflip & _).
  exists column'. split; [exact Hsent|]. apply Hflip. apply not_elem_of_nil.
Defined.

Lemma toggleConstraint_twice_witness :
  let once :=
    <[0 := {| title := "name"; colType := "varchar"; constraints := ["primary"];
              colId := None |}]> (schema (data Sample.accounts)) in
  Sidebar.toggleConstraint (Some Sample.accounts) 0 "primary" = Sidebar.Sent once /\
  Sidebar.toggleConstraint (Some (Sample.withSchema Sample.accounts once)) 0 "primary" =
    Sidebar.Sent (schema (data Sample.accounts)).
Proof.
  intros once. split; [reflexivity|].
  assert (Hcol : schema (data Sample.accounts) !! 0%nat = Some (Sample.column "name"))
    by reflexivity.
  assert (Hout : "primary" ∉ constraints (Sample.column "name"))
    by apply not_elem_of_nil.
  assert (H1 : Sidebar.toggleConstraint (Some Sample.accounts) 0 "primary" =
               Sidebar.Sent once) by reflexivity.
  assert (H2 : schema (data (Sample.withSchema Sample.accounts once)) = once)
    by reflexivity.
  exact (toggleConstraint_twice Sample.accounts (Sample.withSchema Sample.accounts once)
           0 "primary" (Sample.column "name") once Hcol Hout H1 H2).
Defined.

Lemma updateColumn_touches_one_column_witness :
  exists column',
    Sidebar.updateColumn (Some Sample.accounts) 1 Sidebar.FieldType "text" =
      Sidebar.SentSchema (<[1 := column']> (schema (data Sample.accounts))) /\
    title column' = "email" /\ colType column' = "text".
Proof.
  assert (Hcol : schema (data Sample.accounts) !! 1%nat = Some (Sample.column "email"))
    by reflexivity.
  destruct (updateColumn_touches_one_column Sample.accounts 1 Sidebar.FieldType "text"
              (Sample.column "email") Hcol) as (column' & Hsent & _ & _ & Ht & Hty).
  exists column'. repeat split; assumption.
Defined.

Lemma rename_to_own_title_witness :
  Sidebar.updateColumn (Some Sample.accounts) 0 Sidebar.FieldTitle "name" =
  Sidebar.SentSchema (schema (data Sample.accounts)).
Proof.
  apply (rename_to_own_title Sample.accounts 0 (Sample.column "name"));
    [reflexivity | compute_done].
Defined.

Lemma rename_to_fresh_title_witness :
  exists newSchema,
    Sidebar.updateColumn (Some Sample.accounts) 0 Sidebar.FieldTitle "login" =
      Sidebar.SentSchema newSchema /\
    Sidebar.titles newSchema = ["login"; "email"; "name_1"].
Proof.
  assert (Hcol : schema (data Sample.accounts) !! 0%nat = Some (Sample.column "name"))
    by reflexivity.
  assert (Hdistinct : NoDup (Sidebar.titles (schema (data Sample.accounts))))
    by compute_done.
  assert (Hfresh : "login" ∉ delete 0 (Sidebar.titles (schema (data Sample.accounts))))
    by compute_done.
  destruct (rename_to_fresh_title Sample.accounts 0 "login" (Sample.column "name")
              Hcol Hdistinct Hfresh) as (newSchema & Hsent & Ht & _).
  exists newSchema. split; [exact Hsent | exact Ht].
Defined.

Lemma index_past_the_end_witness :
  Sidebar.removeColumn (Some Sample.accounts) 5 = Some (schema (data Sample.accounts)) /\
  Sidebar.toggleConstraint (Some Sample.accounts) 5 "primary" = Sidebar.ColumnUndefined /\
  Sidebar.updateColumn (Some Sample.accounts) 5 Sidebar.FieldTitle "name" =
    Sidebar.SentSparse (schema (data Sample.accounts)) 2 Sidebar.FieldTitle "name_5".
Proof.
  assert (Hlen : (length (schema (data Sample.accounts)) <= 5)%nat) by (simpl; lia).
  destruct (index_past_the_end Sample.accounts 5 Sidebar.FieldTitle "name" "primary" Hlen)
    as (_ & Hremove & Htoggle).
  split; [exact Hremove|]. split; [exact Htoggle|]. reflexivity.
Defined.
